(** * RankedTextSearch3.analyze_keywords: keyword classification and master rows

    A shallow embedding of [analyze_keywords] (src/sourcecode/RankedTextSearch3.py)
    and the properties of its three steps: classification of every keyword as
    'primary' or 'Secondary', creation of one 'Master' row per primary keyword
    together with the master-group dictionary, and the final hierarchical sort.

    Scope of the embedding.
    - A keyword is a Python [str], embedded as a [string] (a sequence of bytes:
      the UTF-8 form of the text, on which equality, the substring test [in]
      and the code-point order of Python coincide with their byte versions).
    - A ranking is a Python [int], embedded as [Z]: [iterrows] hands the cells
      of a mixed-type row over as Python objects, so the sums of step 2 do not
      wrap.  Rankings of another type (text, float) are not covered.  The
      columns pandas builds from these integers are int64, uint64 or object;
      [pd.concat] turns an int64 column that meets a uint64 column into
      float64, and a cell of the output holds the value of that double.
    - A dict of the input list may lack the key 'Keyword string (KH)'; the
      missing cell is a NaN, which [astype(str)] turns into the text 'nan' on
      an object column (pandas 1.x and 2.x).  The key 'Ranking' is carried by
      every dict of the list or by none: a list where only some dicts carry it
      makes pandas build a floating-point column with NaN holes, which is
      outside this development.
    - The [print] calls and the Excel glue around the function are left out. *)

From Stdlib Require Import ZArith String Ascii Lia.
From stdpp Require Import base option list strings gmap sorting.

Local Open Scope Z_scope.

(** ** Exceptions and results *)

Inductive exn : Type :=
  | KeyError (key : string).

Inductive result (A : Type) : Type :=
  | Returns (a : A)
  | Raises (e : exn).

Arguments Returns {A} a.
Arguments Raises {A} e.

#[global] Instance result_ret : MRet result := λ A a, Returns a.

#[global] Instance result_bind : MBind result := λ A B f m,
  match m with
  | Returns a => f a
  | Raises e => Raises e
  end.

(** ** Strings *)

(** Python's [sub in s] on [str]: [sub] occurs in [s] at some offset. *)
Fixpoint str_in (sub s : string) : bool :=
  String.prefix sub s ||
  match s with
  | EmptyString => false
  | String _ s' => str_in sub s'
  end.

(** What [str_in] decides: [s] is [sub] with something before and after. *)
Definition contiguous_in (sub s : string) : Prop :=
  ∃ pre post : string, s = (pre +:+ sub +:+ post)%string.

(** [a <= b] on [str]. *)
Definition str_le (a b : string) : Prop := (a ?= b)%string ≠ Gt.

(** ** The data model *)

(** A dict of the input list that carries a 'Ranking'. *)
Record record : Type := Record_ {
  kh : option string;      (* the value under 'Keyword string (KH)', if any *)
  ranking : Z              (* the value under 'Ranking' *)
}.

(** The argument [data] of [analyze_keywords]. *)
Inductive records : Type :=
  | ranked (data : list record)               (* every dict has a 'Ranking' *)
  | unranked (data : list (option string)).   (* no dict has a 'Ranking' *)

(** A row of a DataFrame with the columns 'Keyword', 'Ranking' and 'Class'.
    [Ranking] is [None] when the frame has no 'Ranking' column.  The type [C]
    of the 'Class' cell is [string] in the working table and [option string]
    once the column is categorical. *)
Record row (C : Type) : Type := Row {
  Keyword : string;
  Ranking : option Z;
  Class : C
}.

Arguments Row {C} Keyword Ranking Class.
Arguments Keyword {C} r.
Arguments Ranking {C} r.
Arguments Class {C} r.

(** [row['Ranking']] on a row yielded by [iterrows]. *)
Definition get_Ranking {C : Type} (r : row C) : result Z :=
  match Ranking r with
  | Some z => Returns z
  | None => Raises (KeyError "Ranking")
  end.

(** ** Lines 18-26: the working table *)

(** The cells pandas builds for one dict: a missing keyword is a NaN, here
    [None]. *)
Definition cells (data : records) : list (option string * option Z) :=
  match data with
  | ranked l => (λ r, (kh r, Some (ranking r))) <$> l
  | unranked l => (λ k, (k, None)) <$> l
  end.

(** [astype(str)] on one cell of an object column (pandas 1.x and 2.x):
    [str] of a text is the text, [str] of NaN is 'nan'. *)
Definition astype_str (c : option string) : string :=
  match c with
  | Some s => s
  | None => "nan"
  end.

(** The frame has a 'Keyword' column when some dict has the key. *)
Definition has_Keyword (cs : list (option string * option Z)) : bool :=
  existsb (λ c, bool_decide (is_Some c.1)) cs.

(** [df = pd.DataFrame(data)], the rename, the coercion of 'Keyword' and the
    empty 'Class' column. *)
Definition DataFrame (data : records) : result (list (row string)) :=
  let cs := cells data in
  if has_Keyword cs
  then Returns ((λ c, Row (astype_str c.1) c.2 EmptyString) <$> cs)
  else Raises (KeyError "Keyword").

(** ** Step 1 (lines 28-40): primary or secondary *)

(** The inner loop over [all_keywords], with its [break]. *)
Fixpoint is_primary (current_keyword : string) (all_keywords : list string) : bool :=
  match all_keywords with
  | [] => false
  | other_keyword :: rest =>
      if negb (current_keyword =? other_keyword)%string
         && str_in other_keyword current_keyword
      then true
      else is_primary current_keyword rest
  end.

Definition set_Class (c : string) (r : row string) : row string :=
  Row (Keyword r) (Ranking r) c.

(** The outer loop: [rows] is what [df.iterrows()] yields, [df] the table
    that [df.at[index, 'Class'] = ...] updates in place. *)
Fixpoint classify_loop (all_keywords : list string)
    (rows : list (nat * row string)) (df : list (row string)) : list (row string) :=
  match rows with
  | [] => df
  | (index, r) :: rest =>
      let c := if is_primary (Keyword r) all_keywords then "primary" else "Secondary" in
      classify_loop all_keywords rest (alter (set_Class c) index df)
  end.

Definition iterrows {C : Type} (df : list (row C)) : list (nat * row C) :=
  imap (λ index r, (index, r)) df.

Definition step1 (df : list (row string)) : list (row string) :=
  classify_loop (Keyword <$> df) (iterrows df) df.

(** ** Step 2 (lines 47-73): master rows and the master-group map *)

(** The inner loop over [df.iterrows()]: the running sum and the map. *)
Fixpoint add_others (master_keyword_name : string) (rows : list (row string))
    (acc : Z * gmap string string) : result (Z * gmap string string) :=
  match rows with
  | [] => Returns acc
  | other_row :: rest =>
      if negb (Keyword other_row =? master_keyword_name)%string
         && str_in (Keyword other_row) master_keyword_name
      then
        r ← get_Ranking other_row;
        add_others master_keyword_name rest
          (acc.1 + r, <[Keyword other_row := master_keyword_name]> acc.2)
      else add_others master_keyword_name rest acc
  end.

(** The outer loop over the primary rows: [master_rows] and
    [keyword_master_group_map]. *)
Fixpoint master_loop (df primary_rows : list (row string))
    (st : list (row string) * gmap string string)
    : result (list (row string) * gmap string string) :=
  match primary_rows with
  | [] => Returns st
  | primary_row :: rest =>
      let master_keyword_name := Keyword primary_row in
      own ← get_Ranking primary_row;
      acc ← add_others master_keyword_name df
               (own, <[master_keyword_name := master_keyword_name]> st.2);
      master_loop df rest
        (st.1 ++ [Row master_keyword_name (Some acc.1) "Master"], acc.2)
  end.

Definition primary_keywords_df (df : list (row string)) : list (row string) :=
  filter (λ r, Class r = "primary") df.

Definition step2 (df : list (row string))
    : result (list (row string) * gmap string string) :=
  master_loop df (primary_keywords_df df) ([], ∅).

(** ** Step 3 (lines 85-104): the combined, sorted table *)

Definition class_order : list string := ["Master"; "primary"; "Secondary"].

(** [pd.Categorical(..., categories=class_order)]: a value that is no
    category becomes NaN, here [None]. *)
Definition Categorical (c : string) : option string :=
  if bool_decide (c ∈ class_order) then Some c else None.

(** The position of a category in [class_order]; NaN sorts last. *)
Definition tier (c : option string) : nat :=
  match c with
  | Some "Master" => 0
  | Some "primary" => 1
  | Some "Secondary" => 2
  | _ => 3
  end%nat.

(** [keyword_master_group_map.get(x, x)]. *)
Definition MasterGroup (m : gmap string string) (x : string) : string :=
  default x (m !! x).

(** [a] comes no later than [b] under by=['MasterGroup', 'Class', 'Keyword']. *)
Definition key_leb (m : gmap string string) (a b : row (option string)) : bool :=
  match (MasterGroup m (Keyword a) ?= MasterGroup m (Keyword b))%string with
  | Lt => true
  | Gt => false
  | Eq =>
      match (tier (Class a) ?= tier (Class b))%nat with
      | Lt => true
      | Gt => false
      | Eq => (Keyword a <=? Keyword b)%string
      end
  end.

(** [sort_values] is a stable sort; the stable sort of a list is unique, and
    insertion from the right computes it. *)
Fixpoint insert_row (m : gmap string string) (x : row (option string))
    (l : list (row (option string))) : list (row (option string)) :=
  match l with
  | [] => [x]
  | y :: l' => if key_leb m x y then x :: y :: l' else y :: insert_row m x l'
  end.

Fixpoint sort_values (m : gmap string string) (l : list (row (option string)))
    : list (row (option string)) :=
  match l with
  | [] => []
  | x :: l' => insert_row m x (sort_values m l')
  end.

Definition to_categorical (r : row string) : row (option string) :=
  Row (Keyword r) (Ranking r) (Categorical (Class r)).

(** The dtypes of a 'Ranking' column. *)
Inductive dtype : Type := int64 | uint64 | object | float64.

(** The dtype [pd.DataFrame] infers for a column of Python ints: int64 when
    all fit, uint64 when none is negative and all fit, object otherwise. *)
Definition infer_dtype (values : list Z) : dtype :=
  if existsb (λ v, (v <? - 2 ^ 63) || (2 ^ 64 <=? v)) values then object
  else if existsb (λ v, 2 ^ 63 <=? v) values
       then if existsb (λ v, v <? 0) values then object else uint64
       else int64.

(** The dtype [pd.concat] gives a column whose parts have the dtypes [a] and
    [b]: int64 and uint64 have no common integer type. *)
Definition find_common_type (a b : dtype) : dtype :=
  match a, b with
  | object, _ | _, object => object
  | int64, int64 => int64
  | uint64, uint64 => uint64
  | _, _ => float64
  end.

(** The multiple of [s] nearest to [n], and the even one of two that are
    equally near (for [0 <= n] and [0 < s]). *)
Definition round_half_even (n s : Z) : Z :=
  let q := n / s in
  let r := n mod s in
  if 2 * r <? s then q * s
  else if s <? 2 * r then (q + 1) * s
  else if Z.even q then q * s else (q + 1) * s.

(** The value of the double nearest to an integer: 53 significant bits.
    It is applied to int64 and uint64 values only, which are far from the
    largest double. *)
Definition to_float64 (z : Z) : Z :=
  let n := Z.abs z in
  Z.sgn z * round_half_even n (2 ^ Z.max 0 (Z.log2 n - 52)).

(** The value of a cell once its column has the dtype [dt]. *)
Definition astype (dt : dtype) (z : Z) : Z :=
  match dt with
  | float64 => to_float64 z
  | _ => z
  end.

Definition recast {C : Type} (dt : dtype) (r : row C) : row C :=
  Row (Keyword r) (astype dt <$> Ranking r) (Class r).

(** The dtype of 'Ranking' in [pd.concat([df, df_master])].  Without master
    rows [df_master] has no column and the column of [df] is kept. *)
Definition concat_dtype (df master_rows : list (row string)) : dtype :=
  match master_rows with
  | [] => infer_dtype (omap Ranking df)
  | _ => find_common_type (infer_dtype (omap Ranking df))
                          (infer_dtype (omap Ranking master_rows))
  end.

(** [pd.concat([df, df_master], ignore_index=True)]: the rows of both
    frames, with the rankings cast to the common dtype.  There are master
    rows only when the table has a 'Ranking' column: line 55 raises
    otherwise. *)
Definition concat (df master_rows : list (row string)) : list (row string) :=
  recast (concat_dtype df master_rows) <$> (df ++ master_rows).

Definition step3 (df master_rows : list (row string)) (m : gmap string string)
    : list (row (option string)) :=
  let final_df := concat df master_rows in
  sort_values m (to_categorical <$> final_df).

(** ** The function *)

(** The table after step 1. *)
Definition classified (data : records) : result (list (row string)) :=
  df ← DataFrame data;
  mret (step1 df).

(** The table, the master rows and the finished map after step 2. *)
Definition aggregated (data : records)
    : result (list (row string) * list (row string) * gmap string string) :=
  df ← classified data;
  st ← step2 df;
  mret (df, st.1, st.2).

Definition analyze_keywords (data : records) : result (list (row (option string))) :=
  a ← aggregated data;
  mret (step3 a.1.1 a.1.2 a.2).

(** ** Notions used to state the properties *)

(** The keyword texts of the working table, in input order. *)
Definition keyword_texts (data : records) : list string :=
  (λ c, astype_str c.1) <$> cells data.


(** The class line 40 writes for a keyword. *)
Definition class_of (all_keywords : list string) (k : string) : string :=
  if is_primary k all_keywords then "primary" else "Secondary".

(** The guard of lines 37 and 62: [k] differs from [name] and occurs in it. *)
Definition subsumed (k name : string) : bool :=
  negb (k =? name)%string && str_in k name.

Definition Zsum (l : list Z) : Z := foldr Z.add 0 l.

(** The rows line 62 selects for a master keyword. *)
Definition others (name : string) (df : list (row string)) : list (row string) :=
  filter (λ o, subsumed (Keyword o) name) df.

(** The master row line 69 appends for a primary row with ranking [own]. *)
Definition master_of (df : list (row string)) (own : Z) (p : row string) : row string :=
  Row (Keyword p)
      (Some (own + Zsum ((λ o, default 0 (Ranking o)) <$> others (Keyword p) df)))
      "Master".

(** The writes lines 58 and 66 make to the map for one primary row. *)
Definition group_writes (df : list (row string)) (m : gmap string string)
    (p : row string) : gmap string string :=
  foldl (λ m' o, <[Keyword o := Keyword p]> m')
        (<[Keyword p := Keyword p]> m) (others (Keyword p) df).

(** The table after step 1, when it can be built. *)
Definition table (data : records) : list (row string) :=
  (λ c, Row (astype_str c.1) c.2
          (class_of (keyword_texts data) (astype_str c.1))) <$> cells data.

(** The keyword texts of the records classified 'primary', in input order. *)
Definition primary_texts (data : records) : list string :=
  filter (λ k, class_of (keyword_texts data) k = "primary") (keyword_texts data).

(** [a < b] on [str]. *)
Definition str_lt (a b : string) : Prop := (a ?= b)%string = Lt.

(** The order of the composite key (MasterGroup, Class, Keyword). *)
Definition key_le (m : gmap string string) (a b : row (option string)) : Prop :=
  str_lt (MasterGroup m (Keyword a)) (MasterGroup m (Keyword b)) ∨
  (MasterGroup m (Keyword a) = MasterGroup m (Keyword b) ∧
   ((tier (Class a) < tier (Class b))%nat ∨
    (tier (Class a) = tier (Class b) ∧ str_le (Keyword a) (Keyword b)))).

(** The master rows of a table whose rows all carry a ranking. *)
Definition masters_of (df : list (row string)) : list (row string) :=
  (λ p, master_of df (default 0 (Ranking p)) p) <$> primary_keywords_df df.

(** The dtype of 'Ranking' in the output. *)
Definition output_dtype (data : records) : dtype :=
  concat_dtype (table data) (masters_of (table data)).

(** * Properties *)

(** ** Results *)

Lemma bind_Returns {A B : Type} (m : result A) (f : A → result B) (b : B) :
  m ≫= f = Returns b → ∃ a, m = Returns a ∧ f a = Returns b.
Proof. destruct m as [a|e]; [by exists a | done]. Qed.

Lemma bind_Raises {A B : Type} (m : result A) (f : A → result B) (e : exn) :
  m ≫= f = Raises e ↔ m = Raises e ∨ ∃ a, m = Returns a ∧ f a = Raises e.
Proof.
  destruct m as [a|e']; simpl; split.
  - intros H. right. by exists a.
  - intros [H|(a' & [= <-] & H)]; [done | exact H].
  - intros [= ->]. by left.
  - intros [[= ->]|(a' & H & _)]; done.
Qed.

(** ** Substrings *)

Section substrings.
Implicit Types sub s pre post : string.

Lemma append_cons a pre post :
  (String a pre +:+ post)%string = String a (pre +:+ post).
Proof. reflexivity. Qed.

Lemma append_nil post : (EmptyString +:+ post)%string = post.
Proof. reflexivity. Qed.

Lemma prefix_spec sub s :
  String.prefix sub s = true ↔ ∃ post, s = (sub +:+ post)%string.
Proof.
  revert s. induction sub as [|a sub IH]; intros s.
  - destruct s; (split; [intros _; by eexists | done]).
  - destruct s as [|b s]; simpl.
    + split; [done | intros [post Hp]; by rewrite append_cons in Hp].
    + destruct (ascii_dec a b) as [->|Hab].
      * rewrite IH. split; intros [post Hp]; exists post.
        -- by rewrite append_cons, <- Hp.
        -- rewrite append_cons in Hp. congruence.
      * split; [done | intros [post Hp]].
        rewrite append_cons in Hp. congruence.
Qed.

Lemma str_in_nil sub : str_in sub EmptyString = String.prefix sub EmptyString.
Proof. unfold str_in. apply orb_false_r. Qed.

Lemma str_in_cons sub b s :
  str_in sub (String b s) = String.prefix sub (String b s) || str_in sub s.
Proof. reflexivity. Qed.

Lemma str_in_spec sub s : str_in sub s = true ↔ contiguous_in sub s.
Proof.
  unfold contiguous_in. induction s as [|b s IH].
  - rewrite str_in_nil, prefix_spec. split.
    + intros [post Hp]. by exists EmptyString, post.
    + intros ([|? pre] & post & Hp); [by exists post | done].
  - rewrite str_in_cons, orb_true_iff, prefix_spec, IH. split.
    + intros [[post Hp]|(pre & post & ->)].
      * by exists EmptyString, post.
      * by exists (String b pre), post.
    + intros ([|a pre] & post & Hp).
      * left. by exists post.
      * right. rewrite append_cons in Hp. injection Hp as -> ->.
        by exists pre, post.
Qed.

Lemma str_in_refl s : str_in s s = true.
Proof.
  apply str_in_spec. exists EmptyString, EmptyString. rewrite append_nil.
  induction s as [|b s IH]; [done|]. by rewrite append_cons, <- IH.
Qed.
End substrings.

(** ** Step 1 *)

Section step1.
Implicit Types (df pre todo : list (row string)) (all : list string).

Lemma is_primary_spec k all :
  is_primary k all = true ↔ ∃ o, o ∈ all ∧ o ≠ k ∧ str_in o k = true.
Proof.
  induction all as [|o all IH]; simpl.
  - split; [done | intros (o & Ho & _); by apply elem_of_nil in Ho].
  - destruct (String.eqb_spec k o) as [->|Hne]; simpl.
    + rewrite IH. split.
      * intros (o' & Ho & H). exists o'. split; [by right | done].
      * intros (o' & Ho & Hne & H). apply elem_of_cons in Ho as [->|Ho]; [done|].
        by exists o'.
    + destruct (str_in o k) eqn:Hin.
      * split; [intros _ | done]. exists o. split; [by left | done].
      * rewrite IH. split.
        -- intros (o' & Ho & H). exists o'. split; [by right | done].
        -- intros (o' & Ho & Hne' & H).
           apply elem_of_cons in Ho as [->|Ho]; [congruence | by exists o'].
Qed.

Lemma classify_loop_app all pre todo :
  classify_loop all
    (imap (λ index r, (length pre + index, r))%nat todo) (pre ++ todo)
  = pre ++ ((λ r, set_Class (class_of all (Keyword r)) r) <$> todo).
Proof.
  revert pre. induction todo as [|r todo IH]; intros pre; [done|].
  rewrite imap_cons. simpl classify_loop.
  rewrite Nat.add_0_r, alter_app_r_alt by lia.
  rewrite Nat.sub_diag. simpl alter.
  rewrite fmap_cons, (cons_middle _ pre), (cons_middle _ pre), !app_assoc.
  rewrite <- (IH (pre ++ [set_Class (class_of all (Keyword r)) r])).
  f_equal. apply imap_ext. intros i x _. simpl.
  rewrite length_app. simpl. f_equal. lia.
Qed.

Lemma step1_fmap df :
  step1 df = (λ r, set_Class (class_of (Keyword <$> df) (Keyword r)) r) <$> df.
Proof.
  unfold step1, iterrows.
  exact (classify_loop_app (Keyword <$> df) [] df).
Qed.
End step1.

(** The table after step 1, row by row. *)
Lemma classified_eq (data : records) :
  classified data
  = if has_Keyword (cells data) then Returns (table data)
    else Raises (KeyError "Keyword").
Proof.
  unfold classified, DataFrame. destruct (has_Keyword (cells data)); [|done].
  simpl. f_equal. rewrite step1_fmap, <- !list_fmap_compose. unfold table, keyword_texts.
  apply list_fmap_ext. intros i c _. done.
Qed.

Lemma classified_inv (data : records) (df : list (row string)) :
  classified data = Returns df →
  has_Keyword (cells data) = true ∧ df = table data.
Proof.
  rewrite classified_eq. destruct (has_Keyword (cells data)); [|done].
  by intros [= <-].
Qed.

Lemma class_of_primary (all : list string) (k : string) :
  class_of all k = "primary" ↔
  ∃ o, o ∈ all ∧ o ≠ k ∧ contiguous_in o k.
Proof.
  unfold class_of. destruct (is_primary k all) eqn:Hp.
  - apply is_primary_spec in Hp as (o & Ho & Hne & Hin).
    split; [intros _ | done]. exists o. by rewrite <- str_in_spec.
  - split; [done|]. intros (o & Ho & Hne & Hin).
    assert (is_primary k all = true) as Hp'; [|congruence].
    apply is_primary_spec. exists o. by rewrite str_in_spec.
Qed.

Lemma class_of_Secondary (all : list string) (k : string) :
  class_of all k = "Secondary" ↔
  ¬ ∃ o, o ∈ all ∧ o ≠ k ∧ contiguous_in o k.
Proof.
  rewrite <- class_of_primary. unfold class_of.
  destruct (is_primary k all); split; done.
Qed.

(** C1. Classification: after step 1 the table has one row per input record,
    in input order, with the record's keyword text and ranking; the row is
    'primary' if and only if some keyword text of the input that differs from
    its own occurs in its keyword as a contiguous, case-sensitive substring,
    and 'Secondary' otherwise.  In particular a row whose keyword contains no
    keyword text other than its own text is 'Secondary', however many records
    share that text. *)
Theorem classification_iff (data : records) (df : list (row string)) :
  classified data = Returns df →
  length df = length (cells data) ∧
  ∀ (i : nat) (c : option string * option Z),
    cells data !! i = Some c →
    ∃ r : row string,
      df !! i = Some r ∧ Keyword r = astype_str c.1 ∧ Ranking r = c.2 ∧
      (Class r = "primary" ↔
       ∃ o, o ∈ keyword_texts data ∧ o ≠ Keyword r ∧ contiguous_in o (Keyword r)) ∧
      (Class r = "Secondary" ↔
       ¬ ∃ o, o ∈ keyword_texts data ∧ o ≠ Keyword r ∧ contiguous_in o (Keyword r)) ∧
      ((∀ o, o ∈ keyword_texts data → contiguous_in o (Keyword r) → o = Keyword r) →
       Class r = "Secondary").
Proof.
  intros Hdf. apply classified_inv in Hdf as [_ ->]. unfold table.
  split; [by rewrite length_fmap|].
  intros i c Hc. eexists. split; [by rewrite list_lookup_fmap, Hc|]. simpl.
  split; [done|]. split; [done|].
  split; [apply class_of_primary|]. split; [apply class_of_Secondary|].
  intros Hsame. apply class_of_Secondary. intros (o & Ho & Hne & Hin). eauto.
Qed.

(** ** Step 2 *)

Section step2.
Implicit Types (df rows prims : list (row string)) (m : gmap string string).

Lemma others_cons name (o : row string) rows :
  others name (o :: rows)
  = if subsumed (Keyword o) name then o :: others name rows else others name rows.
Proof.
  unfold others. destruct (subsumed (Keyword o) name) eqn:Ho.
  - rewrite filter_cons_True; [done | by apply Is_true_true].
  - rewrite filter_cons_False; [done | by apply Is_true_false].
Qed.

(** With a 'Ranking' in every row the inner loop runs to its end. *)
Lemma add_others_Returns name rows (s : Z) m :
  Forall (λ o, is_Some (Ranking o)) rows →
  add_others name rows (s, m)
  = Returns (s + Zsum ((λ o, default 0 (Ranking o)) <$> others name rows),
             foldl (λ m' o, <[Keyword o := name]> m') m (others name rows)).
Proof.
  intros Hall. revert s m.
  induction Hall as [|o rows [z Hz] _ IH]; intros s m.
  - simpl. by rewrite Z.add_0_r.
  - simpl add_others. rewrite others_cons. fold (subsumed (Keyword o) name).
    destruct (subsumed (Keyword o) name).
    + unfold get_Ranking. rewrite Hz. simpl. rewrite IH, Hz. simpl.
      by rewrite <- Z.add_assoc.
    + apply IH.
Qed.

Lemma master_loop_Returns df prims (ms : list (row string)) m :
  Forall (λ o, is_Some (Ranking o)) df →
  Forall (λ p, is_Some (Ranking p)) prims →
  master_loop df prims (ms, m)
  = Returns (ms ++ ((λ p, master_of df (default 0 (Ranking p)) p) <$> prims),
             foldl (group_writes df) m prims).
Proof.
  intros Hdf Hall. revert ms m.
  induction Hall as [|p prims [z Hz] _ IH]; intros ms m.
  - simpl. by rewrite app_nil_r.
  - simpl master_loop. unfold get_Ranking at 1. rewrite Hz. simpl.
    rewrite add_others_Returns by done. simpl.
    rewrite IH, Hz, <- app_assoc. done.
Qed.

(** Without a 'Ranking' column the first primary row raises. *)
Lemma master_loop_Raises df (p : row string) prims (st : list (row string) * gmap string string) :
  Ranking p = None →
  master_loop df (p :: prims) st = Raises (KeyError "Ranking").
Proof. intros Hp. simpl. unfold get_Ranking. by rewrite Hp. Qed.

(** The writes for one primary row, read back. *)
Lemma lookup_foldl_insert name rows m (k : string) :
  foldl (λ m' o, <[Keyword o := name]> m') m rows !! k
  = if decide (k ∈ Keyword <$> rows) then Some name else m !! k.
Proof.
  revert m. induction rows as [|o rows IH]; intros m.
  - case_decide as Hin; [by apply elem_of_nil in Hin | done].
  - simpl foldl. rewrite IH, fmap_cons.
    destruct (decide (k = Keyword o)) as [->|Hne].
    + rewrite lookup_insert_eq.
      rewrite (decide_True (P := _ ∈ _ :: _)) by (by left).
      by case_decide.
    + rewrite lookup_insert_ne by done.
      apply decide_ext. rewrite elem_of_cons.
      split; [by right | by intros [?|?]].
Qed.

Lemma elem_of_others_Keyword name df (k : string) :
  k ∈ Keyword <$> others name df ↔ k ∈ Keyword <$> df ∧ subsumed k name = true.
Proof.
  unfold others. rewrite !list_elem_of_fmap. split.
  - intros (o & -> & Ho). apply list_elem_of_filter in Ho as [Hs Ho].
    split; [by exists o | by apply Is_true_true].
  - intros [(o & -> & Ho) Hs]. exists o. split; [done|].
    apply list_elem_of_filter. split; [by apply Is_true_true | done].
Qed.

(** A primary row [p] claims the key [k] when [k] is a keyword of the table
    that occurs in the keyword of [p]. *)
Lemma lookup_group_writes df m (p : row string) (k : string) :
  p ∈ df →
  group_writes df m p !! k
  = if decide (k ∈ Keyword <$> df ∧ str_in k (Keyword p) = true)
    then Some (Keyword p) else m !! k.
Proof.
  intros Hp. unfold group_writes. rewrite lookup_foldl_insert.
  assert (Keyword p ∈ Keyword <$> df) as Hkp by (by apply list_elem_of_fmap_2).
  destruct (decide (k = Keyword p)) as [->|Hne].
  - rewrite lookup_insert_eq. rewrite (decide_True (P := _ ∧ _)).
    + by destruct (decide _).
    + split; [done | apply str_in_refl].
  - rewrite lookup_insert_ne by done.
    apply decide_ext. rewrite elem_of_others_Keyword. unfold subsumed.
    apply String.eqb_neq in Hne. rewrite Hne. simpl. done.
Qed.

(** The finished map: the last primary row, in the order of processing,
    whose keyword contains [k]. *)
Lemma lookup_foldl_group_writes df prims m (k : string) :
  prims ⊆ df →
  foldl (group_writes df) m prims !! k
  = match last (filter (λ p, k ∈ Keyword <$> df ∧ str_in k (Keyword p) = true) prims) with
    | Some p => Some (Keyword p)
    | None => m !! k
    end.
Proof.
  revert m. induction prims as [|p prims IH] using rev_ind; intros m Hsub; [done|].
  rewrite foldl_app, filter_app. simpl foldl.
  rewrite lookup_group_writes by (apply Hsub, elem_of_app; right; by left).
  destruct (decide _) as [Hk|Hk].
  - rewrite filter_cons_True by done. rewrite filter_nil, last_snoc. done.
  - rewrite filter_cons_False by done. rewrite filter_nil, app_nil_r.
    apply IH. intros x Hx. apply Hsub, elem_of_app. by left.
Qed.
End step2.

(** The rows of the table carry a 'Ranking' or not as the input does. *)
Lemma table_ranked (l : list record) :
  Forall (λ o : row string, is_Some (Ranking o)) (table (ranked l)).
Proof.
  unfold table. apply Forall_fmap, Forall_fmap, Forall_true. intros r. by eexists.
Qed.

Lemma table_unranked (l : list (option string)) (p : row string) :
  p ∈ table (unranked l) → Ranking p = None.
Proof.
  unfold table. intros (c & -> & Hc)%list_elem_of_fmap.
  simpl in Hc. by apply list_elem_of_fmap in Hc as (k & -> & _).
Qed.

Lemma table_Class (data : records) (r : row string) :
  r ∈ table data → Class r = "primary" ∨ Class r = "Secondary".
Proof.
  unfold table. intros (c & -> & _)%list_elem_of_fmap. simpl.
  unfold class_of. destruct (is_primary _ _); auto.
Qed.

Lemma Keyword_table (data : records) :
  Keyword <$> table data = keyword_texts data.
Proof.
  unfold table, keyword_texts. rewrite <- list_fmap_compose.
  by apply list_fmap_ext.
Qed.

Lemma Keyword_filter_primary (all : list string) (cs : list (option string * option Z)) :
  Keyword <$> filter (λ r : row string, Class r = "primary")
                ((λ c, Row (astype_str c.1) c.2 (class_of all (astype_str c.1))) <$> cs)
  = filter (λ k, class_of all k = "primary") ((λ c, astype_str c.1) <$> cs).
Proof.
  induction cs as [|c cs IH]; [done|].
  rewrite !fmap_cons.
  destruct (decide (class_of all (astype_str c.1) = "primary")) as [Hc|Hc].
  - rewrite !filter_cons_True by done. rewrite fmap_cons. simpl. by f_equal.
  - rewrite !filter_cons_False by done. done.
Qed.

Lemma Keyword_primary_rows (data : records) :
  Keyword <$> primary_keywords_df (table data) = primary_texts data.
Proof. apply Keyword_filter_primary. Qed.

(** What step 2 returns, and when. *)
Lemma step2_ranked (l : list record) :
  let df := table (ranked l) in
  step2 df
  = Returns ((λ p, master_of df (default 0 (Ranking p)) p) <$> primary_keywords_df df,
             foldl (group_writes df) ∅ (primary_keywords_df df)).
Proof.
  intros df. unfold step2. rewrite master_loop_Returns; [done | apply table_ranked |].
  apply Forall_forall. intros p [_ Hp]%list_elem_of_filter.
  revert p Hp. apply Forall_forall, table_ranked.
Qed.

Lemma step2_unranked (l : list (option string)) :
  let df := table (unranked l) in
  step2 df
  = if decide (primary_keywords_df df = []) then Returns ([], ∅)
    else Raises (KeyError "Ranking").
Proof.
  intros df. unfold step2.
  destruct (primary_keywords_df df) as [|p prims] eqn:Hprims; [done|].
  rewrite decide_False by done. apply master_loop_Raises.
  apply (table_unranked l). fold df.
  assert (p ∈ primary_keywords_df df) as Hp by (rewrite Hprims; by left).
  by apply list_elem_of_filter in Hp as [_ Hp].
Qed.

Lemma aggregated_inv (data : records) (df ms : list (row string))
    (m : gmap string string) :
  aggregated data = Returns (df, ms, m) →
  has_Keyword (cells data) = true ∧ df = table data ∧
  ms = (λ p, master_of df (default 0 (Ranking p)) p) <$> primary_keywords_df df ∧
  m = foldl (group_writes df) ∅ (primary_keywords_df df) ∧
  Forall (λ p, is_Some (Ranking p)) (primary_keywords_df df).
Proof.
  unfold aggregated. rewrite classified_eq.
  destruct (has_Keyword (cells data)); [|done]. simpl.
  destruct data as [l|l].
  - rewrite step2_ranked. simpl. intros [= <- <- <-].
    do 4 (split; [done|]). apply Forall_forall.
    intros p [_ Hp]%list_elem_of_filter.
    revert p Hp. apply Forall_forall, table_ranked.
  - rewrite step2_unranked. case_decide as Hp; [|done]. simpl.
    intros [= <- <- <-]. by rewrite Hp.
Qed.

(** The finished map sends a keyword text of the input to the keyword of the
    last primary record, in input order, whose keyword contains it, and has
    no other entry. *)
Lemma finished_map (data : records) (df ms : list (row string))
    (m : gmap string string) (k : string) :
  aggregated data = Returns (df, ms, m) →
  m !! k
  = if decide (k ∈ keyword_texts data)
    then last (filter (λ p, str_in k p = true) (primary_texts data))
    else None.
Proof.
  intros (_ & -> & _ & -> & _)%aggregated_inv.
  rewrite lookup_foldl_group_writes by (intros p Hp; by apply list_elem_of_filter in Hp as [_ Hp]).
  rewrite Keyword_table, <- Keyword_primary_rows.
  generalize (primary_keywords_df (table data)). intros prims.
  induction prims as [|p prims IH] using rev_ind.
  - rewrite filter_nil. simpl. rewrite lookup_empty. by case_decide.
  - rewrite fmap_app, !filter_app. simpl.
    destruct (decide (k ∈ keyword_texts data)) as [Hk|Hk];
      destruct (decide (str_in k (Keyword p) = true)) as [Hp|Hp].
    + rewrite !filter_cons_True by done. by rewrite !filter_nil, !last_snoc.
    + rewrite !filter_cons_False by tauto. by rewrite !filter_nil, !app_nil_r.
    + rewrite !filter_cons_False by tauto. by rewrite !filter_nil, !app_nil_r.
    + rewrite !filter_cons_False by tauto. by rewrite !filter_nil, !app_nil_r.
Qed.

(** ** Step 3 *)

Section order.
Implicit Types a b c : string.

Lemma str_lt_trans a b c : str_lt a b → str_lt b c → str_lt a c.
Proof.
  unfold str_lt. revert b c.
  induction a as [|x a IH]; intros [|y b] [|z c]; simpl; try done.
  unfold Ascii.compare.
  destruct (N.compare_spec (N_of_ascii x) (N_of_ascii y)) as [Hxy|Hxy|Hxy];
    destruct (N.compare_spec (N_of_ascii y) (N_of_ascii z)) as [Hyz|Hyz|Hyz];
    destruct (N.compare_spec (N_of_ascii x) (N_of_ascii z)) as [Hxz|Hxz|Hxz];
    try done; try lia.
  apply IH.
Qed.

Lemma str_compare_refl a : (a ?= a)%string = Eq.
Proof.
  induction a as [|x a IH]; simpl; [done|].
  unfold Ascii.compare. by rewrite N.compare_refl.
Qed.

Lemma str_compare_Eq a b : (a ?= b)%string = Eq ↔ a = b.
Proof.
  split; [apply String.compare_eq_iff | intros ->; apply str_compare_refl].
Qed.

Lemma str_le_lt_eq a b : str_le a b ↔ str_lt a b ∨ a = b.
Proof.
  unfold str_le, str_lt. rewrite <- str_compare_Eq.
  destruct (a ?= b)%string; split; auto; try done.
  intros [?|?]; done.
Qed.

Lemma str_lt_irrefl a : ¬ str_lt a a.
Proof. unfold str_lt. by rewrite str_compare_refl. Qed.

Lemma str_le_trans a b c : str_le a b → str_le b c → str_le a c.
Proof.
  rewrite !str_le_lt_eq. intros [Hab| ->] [Hbc| ->]; auto.
  left. by apply str_lt_trans with b.
Qed.

Lemma str_lt_total a b : str_lt a b ∨ a = b ∨ str_lt b a.
Proof.
  unfold str_lt. rewrite <- str_compare_Eq.
  rewrite (String.compare_antisym b a).
  destruct (a ?= b)%string; simpl; auto.
Qed.

Lemma leb_str_le a b : (a <=? b)%string = true ↔ str_le a b.
Proof.
  unfold String.leb, str_le. destruct (a ?= b)%string; split; done.
Qed.
End order.

Section sort_values.
Context (m : gmap string string).
Implicit Types (x y z : row (option string)) (l : list (row (option string))).

Lemma key_leb_key_le x y : key_leb m x y = true ↔ key_le m x y.
Proof.
  unfold key_leb, key_le, str_lt.
  generalize (str_compare_Eq (MasterGroup m (Keyword x)) (MasterGroup m (Keyword y))).
  destruct (MasterGroup m (Keyword x) ?= MasterGroup m (Keyword y))%string;
    intros Heq.
  - assert (MasterGroup m (Keyword x) = MasterGroup m (Keyword y)) as Hg by by apply Heq.
    destruct (Nat.compare_spec (tier (Class x)) (tier (Class y))) as [Ht|Ht|Ht].
    + rewrite leb_str_le. split; [auto|].
      intros [?|[_ [?|[_ ?]]]]; [done | lia | done].
    + split; [auto | done].
    + split; [done|]. intros [?|[_ [?|[? _]]]]; [done | lia | lia].
  - split; [auto | done].
  - split; [done|]. intros [?|[Hg _]]; [done|]. by apply Heq in Hg.
Qed.

Lemma key_le_total x y : key_le m x y ∨ key_le m y x.
Proof.
  unfold key_le.
  destruct (str_lt_total (MasterGroup m (Keyword x)) (MasterGroup m (Keyword y)))
    as [?|[Hg|?]]; [auto | | auto].
  destruct (lt_eq_lt_dec (tier (Class x)) (tier (Class y))) as [[?|Ht]|?];
    [auto | | auto].
  destruct (str_lt_total (Keyword x) (Keyword y)) as [Hk|[Hk|Hk]].
  - left. right. rewrite str_le_lt_eq. auto.
  - left. right. rewrite str_le_lt_eq. auto.
  - right. right. rewrite str_le_lt_eq. auto.
Qed.

Lemma key_le_trans x y z : key_le m x y → key_le m y z → key_le m x z.
Proof.
  unfold key_le.
  intros [Hxy|[Hgxy Hxy]] [Hyz|[Hgyz Hyz]].
  - left. by eapply str_lt_trans.
  - left. by rewrite <- Hgyz.
  - left. by rewrite Hgxy.
  - right. split; [congruence|].
    destruct Hxy as [?|[Htxy Hkxy]], Hyz as [?|[Htyz Hkyz]];
      [left; lia | left; lia | left; lia |].
    right. split; [congruence | by eapply str_le_trans].
Qed.

Lemma insert_row_Permutation x l : insert_row m x l ≡ₚ x :: l.
Proof.
  induction l as [|y l IH]; simpl; [done|].
  destruct (key_leb m x y); [done|]. by rewrite IH, Permutation_swap.
Qed.

Lemma sort_values_Permutation l : sort_values m l ≡ₚ l.
Proof.
  induction l as [|x l IH]; simpl; [done|].
  by rewrite insert_row_Permutation, IH.
Qed.

Lemma insert_row_sorted x l :
  StronglySorted (key_le m) l → StronglySorted (key_le m) (insert_row m x l).
Proof.
  induction 1 as [|y l Hl IH Hy]; simpl.
  - by repeat constructor.
  - destruct (key_leb m x y) eqn:Hxy.
    + apply key_leb_key_le in Hxy. constructor; [by constructor|].
      constructor; [done|]. eapply Forall_impl; [exact Hy|].
      intros z Hz. by eapply key_le_trans.
    + assert (key_le m y x) as Hyx.
      { destruct (key_le_total x y) as [H|H]; [|done].
        apply key_leb_key_le in H. congruence. }
      constructor; [done|].
      rewrite insert_row_Permutation. by constructor.
Qed.

Lemma sort_values_sorted l : StronglySorted (key_le m) (sort_values m l).
Proof.
  induction l as [|x l IH]; simpl; [constructor | by apply insert_row_sorted].
Qed.
End sort_values.

(** What the function returns, and when. *)
Lemma analyze_keywords_inv (data : records) (out : list (row (option string))) :
  analyze_keywords data = Returns out →
  ∃ df ms m, aggregated data = Returns (df, ms, m) ∧
             out = sort_values m (to_categorical <$> concat df ms).
Proof.
  unfold analyze_keywords. intros ([[df ms] m] & Ha & [= <-])%bind_Returns.
  by exists df, ms, m.
Qed.

(** ** The rows of the output *)

Section filters.
Context {A : Type} (P Q : A → Prop) `{!∀ x, Decision (P x), !∀ x, Decision (Q x)}.


Lemma filter_none (l : list A) : Forall (λ x, ¬ P x) l → filter P l = [].
Proof.
  induction 1 as [|x l Hx _ IH]; [done|].
  by rewrite filter_cons_False, IH.
Qed.

Lemma filter_agree (l : list A) :
  (∀ x, x ∈ l → P x ↔ Q x) → filter P l = filter Q l.
Proof.
  induction l as [|x l IH]; intros HPQ; [done|].
  assert (filter P l = filter Q l) as Hl.
  { apply IH. intros y Hy. apply HPQ. by right. }
  destruct (decide (P x)) as [HP|HP].
  - rewrite !filter_cons_True; [by rewrite Hl | by apply HPQ; [left|] | done].
  - rewrite !filter_cons_False; [done | | done].
    intros HQ. apply HP, HPQ; [by left | done].
Qed.
End filters.


Lemma Categorical_class_of (all : list string) (k : string) :
  Categorical (class_of all k) = Some (class_of all k).
Proof. unfold class_of. by destruct (is_primary k all). Qed.

Lemma to_categorical_table (data : records) :
  to_categorical <$> table data
  = (λ c, Row (astype_str c.1) c.2
            (Some (class_of (keyword_texts data) (astype_str c.1)))) <$> cells data.
Proof.
  unfold table. rewrite <- list_fmap_compose. apply list_fmap_ext.
  intros i c _. unfold to_categorical. simpl. by rewrite Categorical_class_of.
Qed.



Lemma to_categorical_concat (df ms : list (row string)) :
  to_categorical <$> concat df ms
  = recast (concat_dtype df ms) <$>
      ((to_categorical <$> df) ++ (to_categorical <$> ms)).
Proof.
  unfold concat. rewrite <- fmap_app, <- !list_fmap_compose.
  by apply list_fmap_ext.
Qed.



(** The output is the table followed by the master rows, reordered. *)
Lemma output_Permutation (data : records) (out : list (row (option string))) :
  analyze_keywords data = Returns out →
  ∃ df ms m,
    aggregated data = Returns (df, ms, m) ∧
    out ≡ₚ recast (output_dtype data) <$>
            ((to_categorical <$> table data) ++
             (to_categorical <$> masters_of (table data))).
Proof.
  intros (df & ms & m & Ha & ->)%analyze_keywords_inv.
  exists df, ms, m. split; [done|].
  apply aggregated_inv in Ha as (_ & -> & -> & _ & _).
  by rewrite sort_values_Permutation, to_categorical_concat.
Qed.


Lemma has_Keyword_spec (cs : list (option string * option Z)) :
  has_Keyword cs = true ↔ ∃ c, c ∈ cs ∧ is_Some c.1.
Proof.
  unfold has_Keyword. rewrite existsb_exists. split.
  - intros (c & Hc & Hs). exists c. split; [by apply list_elem_of_In|].
    by apply bool_decide_eq_true in Hs.
  - intros (c & Hc & Hs). exists c. split; [by apply list_elem_of_In|].
    by apply bool_decide_eq_true.
Qed.


Lemma analyze_keywords_unranked (l : list (option string)) :
  has_Keyword (cells (unranked l)) = true →
  if decide (primary_texts (unranked l) = [])
  then ∃ out, analyze_keywords (unranked l) = Returns out
  else analyze_keywords (unranked l) = Raises (KeyError "Ranking").
Proof.
  intros Hk. unfold analyze_keywords, aggregated.
  rewrite classified_eq, Hk. simpl. rewrite step2_unranked.
  rewrite <- Keyword_primary_rows.
  destruct (primary_keywords_df (table (unranked l))) as [|p prims].
  - rewrite !decide_True by done. by eexists.
  - rewrite !decide_False by done. done.
Qed.

Lemma analyze_keywords_no_Keyword (data : records) :
  has_Keyword (cells data) = false →
  analyze_keywords data = Raises (KeyError "Keyword").
Proof.
  intros Hk. unfold analyze_keywords, aggregated. by rewrite classified_eq, Hk.
Qed.

(** Only float64 changes the value of a cell. *)
Lemma infer_dtype_not_float64 (values : list Z) : infer_dtype values ≠ float64.
Proof. unfold infer_dtype. by repeat destruct (existsb _ _). Qed.

Lemma recast_id {C : Type} (dt : dtype) (r : row C) :
  dt ≠ float64 → recast dt r = r.
Proof.
  intros Hdt. destruct r as [k [z|] c]; unfold recast; simpl; [|done].
  by destruct dt.
Qed.

Lemma concat_dtype_float64 (df ms : list (row string)) :
  concat_dtype df ms = float64 ↔
  ms ≠ [] ∧
  ((infer_dtype (omap Ranking df) = int64 ∧ infer_dtype (omap Ranking ms) = uint64) ∨
   (infer_dtype (omap Ranking df) = uint64 ∧ infer_dtype (omap Ranking ms) = int64)).
Proof.
  unfold concat_dtype. destruct ms as [|r ms].
  - split; [intros H; by apply infer_dtype_not_float64 in H | by intros [? _]].
  - pose proof (infer_dtype_not_float64 (omap Ranking df)) as Hdf.
    pose proof (infer_dtype_not_float64 (omap Ranking (r :: ms))) as Hms.
    destruct (infer_dtype (omap Ranking df)), (infer_dtype (omap Ranking (r :: ms)));
      simpl; split; try done; try (intros [_ [[? ?]|[? ?]]]; done);
      intros _; (split; [done|]); auto.
Qed.

(** Without primary records the output is the table, all Secondary. *)
Lemma no_primary_Permutation (data : records) (out : list (row (option string))) :
  analyze_keywords data = Returns out →
  primary_texts data = [] →
  out ≡ₚ (λ c, Row (astype_str c.1) c.2 (Some "Secondary")) <$> cells data.
Proof.
  intros (df & ms & m & _ & ->)%output_Permutation Hnone.
  assert (primary_keywords_df (table data) = []) as Hprims.
  { apply (fmap_nil_inv Keyword). by rewrite Keyword_primary_rows. }
  unfold output_dtype, masters_of. rewrite Hprims. simpl.
  rewrite app_nil_r, to_categorical_table, <- list_fmap_compose.
  match goal with |- ?a ≡ₚ ?b => assert (a = b) as ->; [|done] end.
  apply list_fmap_ext. intros i c Hc. simpl.
  rewrite recast_id by apply infer_dtype_not_float64. f_equal.
  unfold class_of. destruct (is_primary _ _) eqn:Hp; [|done].
  assert (astype_str c.1 ∈ primary_texts data) as Hin; [|rewrite Hnone in Hin].
  - apply list_elem_of_filter. split.
    + unfold class_of. by rewrite Hp.
    + unfold keyword_texts. apply list_elem_of_fmap. exists c.
      split; [done | by eapply list_elem_of_lookup_2].
  - by apply elem_of_nil in Hin.
Qed.

(** A row of the output is a row of the table or a master row, recast. *)
Lemma output_elem_of (data : records) (out : list (row (option string)))
    (r : row (option string)) :
  analyze_keywords data = Returns out →
  r ∈ out →
  ∃ r0, r = recast (output_dtype data) r0 ∧
        (r0 ∈ to_categorical <$> table data ∨
         r0 ∈ to_categorical <$> masters_of (table data)).
Proof.
  intros (df & ms & m & _ & Hperm)%output_Permutation Hr.
  rewrite Hperm in Hr. apply list_elem_of_fmap in Hr as (r0 & -> & Hr0).
  exists r0. split; [done|]. by apply elem_of_app in Hr0.
Qed.



(** * The claims *)

Lemma classification_iff_witness :
  classified (ranked [Record_ (Some "shoe") 3; Record_ (Some "running shoe") 7])
  = Returns [Row "shoe" (Some 3) "Secondary"; Row "running shoe" (Some 7) "primary"] ∧
  length [Row "shoe" (Some 3) "Secondary"; Row "running shoe" (Some 7) "primary"]
  = length (cells (ranked [Record_ (Some "shoe") 3; Record_ (Some "running shoe") 7])).
Proof.
  split; [vm_compute; reflexivity|].
  apply (classification_iff
           (ranked [Record_ (Some "shoe") 3; Record_ (Some "running shoe") 7])
           [Row "shoe" (Some 3) "Secondary"; Row "running shoe" (Some 7) "primary"]).
  vm_compute; reflexivity.
Defined.




(** C3, as the specification words it, fails: in the input 'a', 'ab', 'abc'
    the primary keyword 'ab' is registered under itself and then handed over
    to the primary keyword 'abc', which is processed later and contains it. *)
Lemma primary_maps_to_itself_counterexample :
  ¬ (∀ (df ms : list (row string)) (m : gmap string string),
       aggregated
         (ranked [Record_ (Some "a") 1; Record_ (Some "ab") 2; Record_ (Some "abc") 3])
       = Returns (df, ms, m) →
       ∀ r, r ∈ df → Class r = "primary" → m !! Keyword r = Some (Keyword r)).
Proof.
  intros H.
  destruct (aggregated
              (ranked [Record_ (Some "a") 1; Record_ (Some "ab") 2; Record_ (Some "abc") 3]))
    as [[[df ms] m]|e] eqn:Ha; [|by vm_compute in Ha].
  assert (m !! "ab" = Some "ab") as Hab.
  { apply (H df ms m eq_refl (Row "ab" (Some 2) "primary")); [|done].
    apply aggregated_inv in Ha as (_ & -> & _). vm_compute. right. left. }
  rewrite (finished_map _ _ _ _ "ab" Ha) in Hab. by vm_compute in Hab.
Qed.

(** C3 (amended). After step 2 the map has an entry for the keyword text of
    every primary row: the keyword of the last primary record, in input
    order, whose keyword contains that text.  It is the text itself when no
    primary record with another keyword contains it. *)
Theorem primary_master_group (data : records) (df ms : list (row string))
    (m : gmap string string) (r : row string) :
  aggregated data = Returns (df, ms, m) →
  r ∈ df →
  Class r = "primary" →
  is_Some (m !! Keyword r) ∧
  m !! Keyword r
  = last (filter (λ p, str_in (Keyword r) p = true) (primary_texts data)) ∧
  ((∀ p, p ∈ primary_texts data → str_in (Keyword r) p = true → p = Keyword r) →
   m !! Keyword r = Some (Keyword r)).
Proof.
  intros Ha Hr Hc. rewrite (finished_map _ _ _ _ (Keyword r) Ha).
  apply aggregated_inv in Ha as (_ & -> & _).
  assert (Keyword r ∈ primary_texts data) as HP.
  { rewrite <- Keyword_primary_rows. apply list_elem_of_fmap_2.
    by apply list_elem_of_filter. }
  assert (Keyword r ∈ keyword_texts data) as Hk.
  { by apply list_elem_of_filter in HP as [_ ?]. }
  rewrite decide_True by done.
  assert (Keyword r ∈ filter (λ p, str_in (Keyword r) p = true) (primary_texts data)) as Hin.
  { apply list_elem_of_filter. split; [apply str_in_refl | done]. }
  destruct (last _) as [k'|] eqn:Hlast.
  - split; [by eexists|]. split; [done|]. intros Hsame. f_equal.
    apply last_Some_elem_of, list_elem_of_filter in Hlast as [Hs Hk'].
    by apply Hsame.
  - apply last_None in Hlast. rewrite Hlast in Hin. by apply elem_of_nil in Hin.
Qed.

Lemma primary_master_group_witness :
  aggregated (ranked [Record_ (Some "a") 1; Record_ (Some "ab") 2; Record_ (Some "abc") 3])
  = Returns ([Row "a" (Some 1) "Secondary"; Row "ab" (Some 2) "primary";
              Row "abc" (Some 3) "primary"],
             [Row "ab" (Some 3) "Master"; Row "abc" (Some 6) "Master"],
             <["a" := "abc"]> (<["ab" := "abc"]> (<["abc" := "abc"]> ∅))) ∧
  Class (Row "ab" (Some 2) "primary") = "primary" ∧
  (<["a" := "abc"]> (<["ab" := "abc"]> (<["abc" := "abc"]> ∅)) : gmap string string)
    !! "ab"
  = last (filter (λ p, str_in "ab" p = true)
            (primary_texts
               (ranked [Record_ (Some "a") 1; Record_ (Some "ab") 2;
                        Record_ (Some "abc") 3]))).
Proof.
  split; [vm_compute; reflexivity|]. split; [reflexivity|].
  apply (primary_master_group
           (ranked [Record_ (Some "a") 1; Record_ (Some "ab") 2; Record_ (Some "abc") 3])
           [Row "a" (Some 1) "Secondary"; Row "ab" (Some 2) "primary";
            Row "abc" (Some 3) "primary"]
           [Row "ab" (Some 3) "Master"; Row "abc" (Some 6) "Master"]
           (<["a" := "abc"]> (<["ab" := "abc"]> (<["abc" := "abc"]> ∅)))
           (Row "ab" (Some 2) "primary")).
  - vm_compute; reflexivity.
  - right. left.
  - reflexivity.
Defined.

(** C4, as the specification words it, fails for a primary keyword: in the
    input 'a', 'xab', 'aby', 'ab' the text 'ab' occurs in the two primary
    keywords 'xab' and 'aby', but its own primary record comes last and
    registers it under itself, not under 'aby'. *)
Lemma last_container_counterexample :
  ¬ (∀ (df ms : list (row string)) (m : gmap string string) (K : string),
       aggregated
         (ranked [Record_ (Some "a") 1; Record_ (Some "xab") 2;
                  Record_ (Some "aby") 3; Record_ (Some "ab") 4])
       = Returns (df, ms, m) →
       K ∈ keyword_texts
             (ranked [Record_ (Some "a") 1; Record_ (Some "xab") 2;
                      Record_ (Some "aby") 3; Record_ (Some "ab") 4]) →
       (2 ≤ length (filter (λ p, p ≠ K ∧ str_in K p = true)
                      (primary_texts
                         (ranked [Record_ (Some "a") 1; Record_ (Some "xab") 2;
                                  Record_ (Some "aby") 3; Record_ (Some "ab") 4]))))%nat →
       m !! K
       = last (filter (λ p, p ≠ K ∧ str_in K p = true)
                 (primary_texts
                    (ranked [Record_ (Some "a") 1; Record_ (Some "xab") 2;
                             Record_ (Some "aby") 3; Record_ (Some "ab") 4])))).
Proof.
  intros H.
  destruct (aggregated
              (ranked [Record_ (Some "a") 1; Record_ (Some "xab") 2;
                       Record_ (Some "aby") 3; Record_ (Some "ab") 4]))
    as [[[df ms] m]|e] eqn:Ha; [|by vm_compute in Ha].
  specialize (H df ms m "ab" eq_refl).
  pose proof (finished_map _ _ _ _ "ab" Ha) as Hm.
  rewrite H in Hm.
  - by vm_compute in Hm.
  - vm_compute. do 3 right. left.
  - vm_compute. lia.
Qed.

(** C4 (amended). Last write wins: a keyword text [K] of the input that
    occurs, as a different text, in the keywords of two or more primary
    records is mapped to the keyword of the last primary record, in input
    order, whose keyword contains [K], the primary records with the text [K]
    itself included.  For a secondary [K] this is the last primary record that
    contains it. *)
Theorem last_container_wins (data : records) (df ms : list (row string))
    (m : gmap string string) (K : string) :
  aggregated data = Returns (df, ms, m) →
  K ∈ keyword_texts data →
  (2 ≤ length (filter (λ p, p ≠ K ∧ str_in K p = true) (primary_texts data)))%nat →
  m !! K = last (filter (λ p, str_in K p = true) (primary_texts data)) ∧
  (K ∉ primary_texts data →
   m !! K = last (filter (λ p, p ≠ K ∧ str_in K p = true) (primary_texts data))).
Proof.
  intros Ha HK _. rewrite (finished_map _ _ _ _ K Ha), decide_True by done.
  split; [done|]. intros HnP. f_equal. apply filter_agree.
  intros p Hp. split; [|tauto]. intros Hin. split; [|done].
  intros ->. done.
Qed.

Lemma last_container_wins_witness :
  aggregated (ranked [Record_ (Some "a") 1; Record_ (Some "xab") 2; Record_ (Some "aby") 3])
  = Returns ([Row "a" (Some 1) "Secondary"; Row "xab" (Some 2) "primary";
              Row "aby" (Some 3) "primary"],
             [Row "xab" (Some 3) "Master"; Row "aby" (Some 4) "Master"],
             <["a" := "aby"]> (<["xab" := "xab"]> (<["aby" := "aby"]> ∅))) ∧
  "a" ∈ keyword_texts
          (ranked [Record_ (Some "a") 1; Record_ (Some "xab") 2; Record_ (Some "aby") 3]) ∧
  (2 ≤ length (filter (λ p, p ≠ "a" ∧ str_in "a" p = true)
                 (primary_texts
                    (ranked [Record_ (Some "a") 1; Record_ (Some "xab") 2;
                             Record_ (Some "aby") 3]))))%nat ∧
  (<["a" := "aby"]> (<["xab" := "xab"]> (<["aby" := "aby"]> ∅)) : gmap string string)
    !! "a"
  = last (filter (λ p, str_in "a" p = true)
            (primary_texts
               (ranked [Record_ (Some "a") 1; Record_ (Some "xab") 2;
                        Record_ (Some "aby") 3]))).
Proof.
  split; [vm_compute; reflexivity|]. split; [by left|].
  split; [vm_compute; lia|].
  refine (proj1 (last_container_wins
           (ranked [Record_ (Some "a") 1; Record_ (Some "xab") 2; Record_ (Some "aby") 3])
           [Row "a" (Some 1) "Secondary"; Row "xab" (Some 2) "primary";
            Row "aby" (Some 3) "primary"]
           [Row "xab" (Some 3) "Master"; Row "aby" (Some 4) "Master"]
           (<["a" := "aby"]> (<["xab" := "xab"]> (<["aby" := "aby"]> ∅)))
           "a" _ _ _)).
  - vm_compute; reflexivity.
  - by left.
  - vm_compute. lia.
Defined.

(** C5. Sort order: the output is sorted ascending by the composite key
    (MasterGroup, Class, Keyword), where the master group of a row is the
    entry of its keyword in the finished map, or the keyword itself when
    there is none, the classes rank Master < primary < Secondary, and the
    keywords are compared as texts. *)
Theorem output_sorted (data : records) (df ms : list (row string))
    (m : gmap string string) (out : list (row (option string))) :
  aggregated data = Returns (df, ms, m) →
  analyze_keywords data = Returns out →
  StronglySorted (key_le m) out ∧
  (∀ x, MasterGroup m x = match m !! x with Some g => g | None => x end) ∧
  (tier (Some "Master") < tier (Some "primary") < tier (Some "Secondary"))%nat.
Proof.
  intros Ha (df' & ms' & m' & Ha' & ->)%analyze_keywords_inv.
  rewrite Ha in Ha'. injection Ha' as <- <- <-.
  split; [apply sort_values_sorted|]. split; [done | simpl; lia].
Qed.

Lemma output_sorted_witness :
  aggregated (ranked [Record_ (Some "shoe") 3; Record_ (Some "running shoe") 7])
  = Returns ([Row "shoe" (Some 3) "Secondary"; Row "running shoe" (Some 7) "primary"],
             [Row "running shoe" (Some 10) "Master"],
             <["shoe" := "running shoe"]> (<["running shoe" := "running shoe"]> ∅)) ∧
  analyze_keywords (ranked [Record_ (Some "shoe") 3; Record_ (Some "running shoe") 7])
  = Returns [Row "running shoe" (Some 10) (Some "Master");
             Row "running shoe" (Some 7) (Some "primary");
             Row "shoe" (Some 3) (Some "Secondary")] ∧
  StronglySorted
    (key_le (<["shoe" := "running shoe"]> (<["running shoe" := "running shoe"]> ∅)))
    [Row "running shoe" (Some 10) (Some "Master");
     Row "running shoe" (Some 7) (Some "primary");
     Row "shoe" (Some 3) (Some "Secondary")].
Proof.
  split; [vm_compute; reflexivity|]. split; [vm_compute; reflexivity|].
  refine (proj1 (output_sorted
           (ranked [Record_ (Some "shoe") 3; Record_ (Some "running shoe") 7])
           [Row "shoe" (Some 3) "Secondary"; Row "running shoe" (Some 7) "primary"]
           [Row "running shoe" (Some 10) "Master"]
           (<["shoe" := "running shoe"]> (<["running shoe" := "running shoe"]> ∅))
           [Row "running shoe" (Some 10) (Some "Master");
            Row "running shoe" (Some 7) (Some "primary");
            Row "shoe" (Some 3) (Some "Secondary")] _ _)).
  - vm_compute; reflexivity.
  - vm_compute; reflexivity.
Defined.

(** C6. Nested containment: for 'running shoe' 7, 'shoe' 3 and
    'red running shoe' 2 step 1 classifies 'shoe' as Secondary and the two
    others as primary, and the output has exactly two Master rows,
    'running shoe' with 7 + 3 = 10 and 'red running shoe' with
    2 + 7 + 3 = 12. *)
Theorem nested_containment :
  classified (ranked [Record_ (Some "running shoe") 7; Record_ (Some "shoe") 3;
                      Record_ (Some "red running shoe") 2])
  = Returns [Row "running shoe" (Some 7) "primary"; Row "shoe" (Some 3) "Secondary";
             Row "red running shoe" (Some 2) "primary"] ∧
  analyze_keywords (ranked [Record_ (Some "running shoe") 7; Record_ (Some "shoe") 3;
                            Record_ (Some "red running shoe") 2])
  = Returns [Row "red running shoe" (Some 12) (Some "Master");
             Row "running shoe" (Some 10) (Some "Master");
             Row "red running shoe" (Some 2) (Some "primary");
             Row "running shoe" (Some 7) (Some "primary");
             Row "shoe" (Some 3) (Some "Secondary")] ∧
  filter (λ r : row (option string), Class r = Some "Master")
    [Row "red running shoe" (Some 12) (Some "Master");
     Row "running shoe" (Some 10) (Some "Master");
     Row "red running shoe" (Some 2) (Some "primary");
     Row "running shoe" (Some 7) (Some "primary");
     Row "shoe" (Some 3) (Some "Secondary")]
  = [Row "red running shoe" (Some 12) (Some "Master");
     Row "running shoe" (Some 10) (Some "Master")].
Proof. repeat split; vm_compute; reflexivity. Qed.

(** C7. Every row of the output carries one of the three classes. *)
Theorem output_Class (data : records) (out : list (row (option string)))
    (r : row (option string)) :
  analyze_keywords data = Returns out →
  r ∈ out →
  Class r = Some "Master" ∨ Class r = Some "primary" ∨ Class r = Some "Secondary".
Proof.
  intros Hout Hr.
  destruct (output_elem_of _ _ _ Hout Hr) as (r0 & -> & [Hr0|Hr0]).
  - rewrite to_categorical_table in Hr0.
    apply list_elem_of_fmap in Hr0 as (c & -> & _). simpl.
    unfold class_of. destruct (is_primary _ _); auto.
  - left. apply list_elem_of_fmap in Hr0 as (r1 & -> & Hr1).
    by apply list_elem_of_fmap in Hr1 as (p & -> & _).
Qed.

Lemma output_Class_witness :
  analyze_keywords (ranked [Record_ (Some "shoe") 3; Record_ (Some "running shoe") 7])
  = Returns [Row "running shoe" (Some 10) (Some "Master");
             Row "running shoe" (Some 7) (Some "primary");
             Row "shoe" (Some 3) (Some "Secondary")] ∧
  (Class (Row "shoe" (Some 3) (Some "Secondary")) = Some "Master" ∨
   Class (Row "shoe" (Some 3) (Some "Secondary")) = Some "primary" ∨
   Class (Row "shoe" (Some 3) (Some "Secondary")) = Some "Secondary").
Proof.
  split; [vm_compute; reflexivity|].
  apply (output_Class
           (ranked [Record_ (Some "shoe") 3; Record_ (Some "running shoe") 7])
           [Row "running shoe" (Some 10) (Some "Master");
            Row "running shoe" (Some 7) (Some "primary");
            Row "shoe" (Some 3) (Some "Secondary")]).
  - vm_compute; reflexivity.
  - do 2 right. left.
Defined.

(** C8, as the specification words it, fails: a single record with the
    keyword 'shoe' and no ranking is not rejected; the function returns its
    row, classified Secondary. *)
Lemma malformed_record_counterexample :
  ¬ ((∃ c, c ∈ cells (unranked [Some "shoe"]) ∧ (c.1 = None ∨ c.2 = None)) →
     ∃ e, analyze_keywords (unranked [Some "shoe"]) = Raises e).
Proof.
  intros H. destruct H as [e He].
  - exists (Some "shoe", None). split; [by left | by right].
  - by vm_compute in He.
Qed.

Lemma has_Keyword_false (cs : list (option string * option Z)) :
  has_Keyword cs = false ↔ ∀ c, c ∈ cs → c.1 = None.
Proof.
  rewrite <- not_true_iff_false, has_Keyword_spec. split.
  - intros Hn c Hc. destruct c.1 as [k|] eqn:Hk; [|done].
    destruct Hn. exists c. split; [done|]. rewrite Hk. by eexists.
  - intros Hall (c & Hc & [k Hk]). by rewrite (Hall c Hc) in Hk.
Qed.

(** C8 (amended). An input in which no record carries a keyword fails the
    whole invocation, without any output row, and so does an input in which
    every record has a keyword, no record has a ranking and some record is
    classified primary.  But a malformed record is not always rejected: when
    every record has a keyword, no record has a ranking and no record is
    primary, the function returns all the records, classified Secondary,
    without a ranking. *)
Theorem malformed_input_outcomes :
  (∀ data : records,
     (∀ c, c ∈ cells data → c.1 = None) →
     analyze_keywords data = Raises (KeyError "Keyword")) ∧
  (∀ ks : list string,
     primary_texts (unranked (Some <$> ks)) ≠ [] →
     analyze_keywords (unranked (Some <$> ks)) = Raises (KeyError "Ranking")) ∧
  (∀ ks : list string,
     ks ≠ [] →
     primary_texts (unranked (Some <$> ks)) = [] →
     ∃ out, analyze_keywords (unranked (Some <$> ks)) = Returns out ∧
            out ≡ₚ (λ k, Row k None (Some "Secondary")) <$> ks).
Proof.
  assert (∀ ks : list string,
            ks ≠ [] → has_Keyword (cells (unranked (Some <$> ks))) = true) as Hk.
  { intros [|k ks] Hne; [done|]. apply has_Keyword_spec.
    exists (Some k, None). split; [by left | by eexists]. }
  split; [|split].
  - intros data Hnone. by apply analyze_keywords_no_Keyword, has_Keyword_false.
  - intros ks Hp.
    assert (ks ≠ []) as Hne by (by intros ->).
    pose proof (analyze_keywords_unranked (Some <$> ks) (Hk ks Hne)) as Hu.
    by rewrite decide_False in Hu.
  - intros ks Hne Hp.
    pose proof (analyze_keywords_unranked (Some <$> ks) (Hk ks Hne)) as Hu.
    rewrite decide_True in Hu by done. destruct Hu as [out Hout].
    exists out. split; [done|].
    rewrite (no_primary_Permutation _ _ Hout Hp). simpl.
    by rewrite <- !list_fmap_compose.
Qed.

Lemma malformed_input_outcomes_witness :
  analyze_keywords (ranked [Record_ None 1]) = Raises (KeyError "Keyword") ∧
  analyze_keywords (unranked (Some <$> ["shoe"; "running shoe"]))
  = Raises (KeyError "Ranking") ∧
  ∃ out, analyze_keywords (unranked (Some <$> ["shoe"; "boot"])) = Returns out ∧
         out ≡ₚ (λ k, Row k None (Some "Secondary")) <$> ["shoe"; "boot"].
Proof.
  split; [|split].
  - refine (proj1 malformed_input_outcomes (ranked [Record_ None 1]) _).
    intros c Hc. apply list_elem_of_singleton in Hc. by rewrite Hc.
  - refine (proj1 (proj2 malformed_input_outcomes) ["shoe"; "running shoe"] _).
    vm_compute. discriminate.
  - refine (proj2 (proj2 malformed_input_outcomes) ["shoe"; "boot"] _ _).
    + discriminate.
    + vm_compute; reflexivity.
Defined.




(** C10. The empty input does not give an empty output: the table has no
    'Keyword' column and line 22 raises a KeyError. *)
Theorem empty_input :
  analyze_keywords (ranked []) = Raises (KeyError "Keyword") ∧
  analyze_keywords (unranked []) = Raises (KeyError "Keyword") ∧
  ∀ out, analyze_keywords (ranked []) ≠ Returns out.
Proof. repeat split; done. Qed.

(** * Further properties of the three steps *)

(** ** Containment of keywords *)

Section containment.
Implicit Types a b c s : string.

Lemma append_assoc a b c : ((a +:+ b) +:+ c = a +:+ (b +:+ c))%string.
Proof.
  induction a as [|x a IH]; [done|]. by rewrite !append_cons, IH.
Qed.

Lemma length_append a b :
  String.length (a +:+ b) = (String.length a + String.length b)%nat.
Proof.
  induction a as [|x a IH]; [done|]. rewrite append_cons. simpl. by rewrite IH.
Qed.

Lemma append_nil_r a : (a +:+ EmptyString)%string = a.
Proof. induction a as [|x a IH]; [done|]. by rewrite append_cons, IH. Qed.

Lemma append_length_0 a : String.length a = 0%nat → a = EmptyString.
Proof. by destruct a. Qed.

Lemma contiguous_in_length a b :
  contiguous_in a b → (String.length a ≤ String.length b)%nat.
Proof. intros (pre & post & ->). rewrite !length_append. lia. Qed.

Lemma contiguous_in_same_length a b :
  contiguous_in a b → String.length a = String.length b → a = b.
Proof.
  intros (pre & post & ->). rewrite !length_append. intros Hlen.
  assert (pre = EmptyString) as -> by (apply append_length_0; lia).
  assert (post = EmptyString) as -> by (apply append_length_0; lia).
  by rewrite append_nil, append_nil_r.
Qed.

Lemma contiguous_in_trans a b c :
  contiguous_in a b → contiguous_in b c → contiguous_in a c.
Proof.
  intros (pre & post & ->) (pre' & post' & ->).
  exists (pre' +:+ pre)%string, (post +:+ post')%string.
  by rewrite !append_assoc.
Qed.

Lemma str_in_trans a b c :
  str_in a b = true → str_in b c = true → str_in a c = true.
Proof. rewrite !str_in_spec. apply contiguous_in_trans. Qed.

Lemma str_in_empty s : str_in EmptyString s = true.
Proof. apply str_in_spec. by exists EmptyString, s. Qed.

Lemma str_in_empty_inv s : str_in s EmptyString = true → s = EmptyString.
Proof.
  intros Hs%str_in_spec. apply contiguous_in_length in Hs.
  apply append_length_0. simpl in Hs. lia.
Qed.
End containment.

(** ** Step 1: what decides the class *)

Lemma table_elem_of (data : records) (r : row string) :
  r ∈ table data →
  Keyword r ∈ keyword_texts data ∧
  Class r = class_of (keyword_texts data) (Keyword r).
Proof.
  unfold table. intros (c & -> & Hc)%list_elem_of_fmap. simpl.
  split; [|done]. unfold keyword_texts.
  apply list_elem_of_fmap. by exists c.
Qed.

Lemma shortest_text (l : list string) :
  l ≠ [] →
  ∃ k, k ∈ l ∧ ∀ o, o ∈ l → (String.length k ≤ String.length o)%nat.
Proof.
  induction l as [|x l IH]; [done|]. intros _.
  destruct l as [|y l].
  - exists x. split; [by left|]. by intros o ->%list_elem_of_singleton.
  - destruct IH as (k & Hk & Hmin); [done|].
    destruct (le_lt_dec (String.length x) (String.length k)) as [Hle|Hlt].
    + exists x. split; [by left|]. intros o [->|Ho]%elem_of_cons; [done|].
      specialize (Hmin o Ho). lia.
    + exists k. split; [by right|]. intros o [->|Ho]%elem_of_cons; [lia|].
      by apply Hmin.
Qed.

(** X1. A record whose keyword is no longer than any keyword of the input is
    Secondary: a different text that occurs in it would have to be shorter.
    So step 1 always leaves at least one Secondary row, and the primary
    records are fewer than the records. *)
Theorem shortest_keyword_Secondary (data : records) (df : list (row string)) :
  classified data = Returns df →
  (∀ r, r ∈ df →
     (∀ o, o ∈ keyword_texts data →
        (String.length (Keyword r) ≤ String.length o)%nat) →
     Class r = "Secondary") ∧
  (∃ r, r ∈ df ∧ Class r = "Secondary") ∧
  (length (primary_texts data) < length df)%nat.
Proof.
  intros [Hk ->]%classified_inv.
  assert (∀ k, k ∈ keyword_texts data →
            (∀ o, o ∈ keyword_texts data →
               (String.length k ≤ String.length o)%nat) →
            class_of (keyword_texts data) k = "Secondary") as Hshort.
  { intros k _ Hmin. apply class_of_Secondary. intros (o & Ho & Hne & Hin).
    apply Hne, contiguous_in_same_length; [done|].
    apply contiguous_in_length in Hin. specialize (Hmin o Ho). lia. }
  assert (∃ k, k ∈ keyword_texts data ∧
               class_of (keyword_texts data) k = "Secondary") as (k & Hkin & Hks).
  { destruct (shortest_text (keyword_texts data)) as (k & Hkin & Hmin).
    - apply has_Keyword_spec in Hk as (c & Hc & _). unfold keyword_texts.
      intros Hnil. apply fmap_nil_inv in Hnil. rewrite Hnil in Hc.
      by apply elem_of_nil in Hc.
    - exists k. split; [done | by apply Hshort]. }
  split; [|split].
  - intros r [Hr ->]%table_elem_of Hmin. by apply Hshort.
  - rewrite <- Keyword_table in Hkin.
    apply list_elem_of_fmap in Hkin as (r & -> & Hr). exists r. split; [done|].
    by apply table_elem_of in Hr as [_ ->].
  - replace (length (table data)) with (length (keyword_texts data)).
    + unfold primary_texts. apply (length_filter_lt _ _ k); [done|].
      by rewrite Hks.
    + unfold table, keyword_texts. by rewrite !length_fmap.
Qed.

Lemma shortest_keyword_Secondary_witness :
  classified (ranked [Record_ (Some "shoe") 3; Record_ (Some "running shoe") 7])
  = Returns [Row "shoe" (Some 3) "Secondary"; Row "running shoe" (Some 7) "primary"] ∧
  Nat.lt
    (length (primary_texts
               (ranked [Record_ (Some "shoe") 3; Record_ (Some "running shoe") 7])))
    (length [Row "shoe" (Some 3) "Secondary"; Row "running shoe" (Some 7) "primary"]).
Proof.
  split; [vm_compute; reflexivity|].
  refine (proj2 (proj2 (shortest_keyword_Secondary
           (ranked [Record_ (Some "shoe") 3; Record_ (Some "running shoe") 7])
           [Row "shoe" (Some 3) "Secondary"; Row "running shoe" (Some 7) "primary"]
           _))).
  vm_compute; reflexivity.
Defined.

(** X2. An empty keyword occurs in every text: when some record of the input
    has the empty keyword, every record with another keyword is primary, and
    the records with the empty keyword are Secondary. *)
Theorem empty_keyword_classes (data : records) (df : list (row string))
    (r : row string) :
  classified data = Returns df →
  EmptyString ∈ keyword_texts data →
  r ∈ df →
  (Keyword r = EmptyString → Class r = "Secondary") ∧
  (Keyword r ≠ EmptyString → Class r = "primary").
Proof.
  intros [_ ->]%classified_inv Hempty [Hr ->]%table_elem_of. split.
  - intros ->. apply class_of_Secondary. intros (o & _ & Hne & Hin).
    apply Hne. apply str_in_empty_inv. by apply str_in_spec.
  - intros Hne. apply class_of_primary. exists EmptyString.
    split; [done|]. split; [done|]. apply str_in_spec, str_in_empty.
Qed.

Lemma empty_keyword_classes_witness :
  classified (ranked [Record_ (Some EmptyString) 1; Record_ (Some "shoe") 3])
  = Returns [Row EmptyString (Some 1) "Secondary"; Row "shoe" (Some 3) "primary"] ∧
  EmptyString ∈ keyword_texts
                  (ranked [Record_ (Some EmptyString) 1; Record_ (Some "shoe") 3]) ∧
  (Keyword (Row "shoe" (Some 3) "primary") ≠ EmptyString →
   Class (Row "shoe" (Some 3) "primary") = "primary").
Proof.
  split; [vm_compute; reflexivity|]. split; [by left|].
  refine (proj2 (empty_keyword_classes
           (ranked [Record_ (Some EmptyString) 1; Record_ (Some "shoe") 3])
           [Row EmptyString (Some 1) "Secondary"; Row "shoe" (Some 3) "primary"]
           (Row "shoe" (Some 3) "primary") _ _ _)).
  - vm_compute; reflexivity.
  - by left.
  - right. left.
Defined.

(** X3. Step 1 writes every 'Class' cell from the keywords alone and leaves
    the other columns alone: whatever the column held before, running the
    step again on its result changes nothing. *)
Theorem step1_idempotent (df : list (row string)) :
  step1 (step1 df) = step1 df ∧
  Keyword <$> step1 df = Keyword <$> df ∧
  Ranking <$> step1 df = Ranking <$> df ∧
  Forall (λ r, Class r = "primary" ∨ Class r = "Secondary") (step1 df).
Proof.
  assert (Keyword <$> step1 df = Keyword <$> df) as Hk.
  { rewrite step1_fmap, <- list_fmap_compose. by apply list_fmap_ext. }
  split; [|split; [done|split]].
  - rewrite (step1_fmap (step1 df)), Hk. rewrite (step1_fmap df) at 2.
    rewrite step1_fmap, <- list_fmap_compose. by apply list_fmap_ext.
  - rewrite step1_fmap, <- list_fmap_compose. by apply list_fmap_ext.
  - rewrite step1_fmap. apply Forall_fmap, Forall_true. intros r. simpl.
    unfold class_of. destruct (is_primary _ _); auto.
Qed.

(** ** Step 2: the entries of the map *)

Lemma primary_texts_subseteq (data : records) (p : string) :
  p ∈ primary_texts data → p ∈ keyword_texts data.
Proof. unfold primary_texts. by intros [_ ?]%list_elem_of_filter. Qed.

Lemma finished_map_Some (data : records) (df ms : list (row string))
    (m : gmap string string) (k g : string) :
  aggregated data = Returns (df, ms, m) →
  m !! k = Some g →
  k ∈ keyword_texts data ∧ str_in k g = true ∧
  ∃ P1 P2, primary_texts data = P1 ++ g :: P2 ∧
           Forall (λ p, ¬ str_in k p = true) P2.
Proof.
  intros Ha. rewrite (finished_map _ _ _ _ k Ha).
  case_decide as Hk; [|done]. intros Hlast. split; [done|].
  split.
  - by apply last_Some_elem_of, list_elem_of_filter in Hlast as [? _].
  - by apply last_filter_Some in Hlast.
Qed.

(** X4. The map is sound: an entry sends a keyword text of the input to the
    keyword of a primary record that contains it, and every keyword text
    contained in some primary keyword has an entry.  So every row of the
    output sorts in a group whose keyword contains the row's keyword. *)
Theorem master_group_contains (data : records) (df ms : list (row string))
    (m : gmap string string) :
  aggregated data = Returns (df, ms, m) →
  (∀ k g, m !! k = Some g →
     k ∈ keyword_texts data ∧ g ∈ primary_texts data ∧ str_in k g = true) ∧
  (∀ k p, k ∈ keyword_texts data → p ∈ primary_texts data →
     str_in k p = true → is_Some (m !! k)) ∧
  (∀ k, str_in k (MasterGroup m k) = true).
Proof.
  intros Ha.
  assert (∀ k g, m !! k = Some g →
            k ∈ keyword_texts data ∧ g ∈ primary_texts data ∧ str_in k g = true)
    as Hsound.
  { intros k g (Hk & Hin & P1 & P2 & HP & _)%(finished_map_Some _ _ _ _ _ _ Ha).
    split; [done|]. split; [|done]. rewrite HP. apply elem_of_app. right. by left. }
  split; [done|]. split.
  - intros k p Hk Hp Hin. rewrite (finished_map _ _ _ _ k Ha), decide_True by done.
    destruct (last _) as [g|] eqn:Hlast; [by eexists|].
    apply last_None in Hlast.
    assert (p ∈ filter (λ p, str_in k p = true) (primary_texts data)) as Hf
      by by apply list_elem_of_filter.
    rewrite Hlast in Hf. by apply elem_of_nil in Hf.
  - intros k. unfold MasterGroup. destruct (m !! k) as [g|] eqn:Hg; simpl.
    + by apply Hsound in Hg as (_ & _ & ?).
    + apply str_in_refl.
Qed.

Lemma master_group_contains_witness :
  aggregated (ranked [Record_ (Some "shoe") 3; Record_ (Some "running shoe") 7])
  = Returns ([Row "shoe" (Some 3) "Secondary"; Row "running shoe" (Some 7) "primary"],
             [Row "running shoe" (Some 10) "Master"],
             <["shoe" := "running shoe"]> (<["running shoe" := "running shoe"]> ∅)) ∧
  ∀ k, str_in k (MasterGroup
                   (<["shoe" := "running shoe"]>
                      (<["running shoe" := "running shoe"]> ∅)) k) = true.
Proof.
  split; [vm_compute; reflexivity|].
  refine (proj2 (proj2 (master_group_contains
           (ranked [Record_ (Some "shoe") 3; Record_ (Some "running shoe") 7])
           [Row "shoe" (Some 3) "Secondary"; Row "running shoe" (Some 7) "primary"]
           [Row "running shoe" (Some 10) "Master"]
           (<["shoe" := "running shoe"]> (<["running shoe" := "running shoe"]> ∅))
           _))).
  vm_compute; reflexivity.
Defined.

Lemma finished_map_fixed (data : records) (df ms : list (row string))
    (m : gmap string string) (k g : string) :
  aggregated data = Returns (df, ms, m) →
  m !! k = Some g →
  m !! g = Some g.
Proof.
  intros Ha Hkg.
  destruct (finished_map_Some _ _ _ _ _ _ Ha Hkg)
    as (Hk & Hin & P1 & P2 & HP & HP2).
  rewrite (finished_map _ _ _ _ g Ha), decide_True.
  - rewrite HP, filter_app, filter_cons_True by apply str_in_refl.
    rewrite (filter_none _ P2).
    + by rewrite last_snoc.
    + eapply Forall_impl; [exact HP2|]. intros p Hp Hgp.
      apply Hp. by apply str_in_trans with g.
  - apply primary_texts_subseteq. rewrite HP. apply elem_of_app. right. by left.
Qed.

(** X5. Group keywords are fixed points of the map: when a keyword is
    mapped to [g], then [g] is mapped to itself, because a later primary
    record containing [g] would have taken the keyword over as well.  So the
    master group of a master group is that group. *)
Theorem master_group_fixed (data : records) (df ms : list (row string))
    (m : gmap string string) (k g : string) :
  aggregated data = Returns (df, ms, m) →
  m !! k = Some g →
  m !! g = Some g ∧ MasterGroup m (MasterGroup m k) = MasterGroup m k.
Proof.
  intros Ha Hkg. pose proof (finished_map_fixed _ _ _ _ _ _ Ha Hkg) as Hg.
  split; [done|]. unfold MasterGroup. rewrite Hkg. simpl. by rewrite Hg.
Qed.

Lemma master_group_fixed_witness :
  aggregated (ranked [Record_ (Some "shoe") 3; Record_ (Some "running shoe") 7])
  = Returns ([Row "shoe" (Some 3) "Secondary"; Row "running shoe" (Some 7) "primary"],
             [Row "running shoe" (Some 10) "Master"],
             <["shoe" := "running shoe"]> (<["running shoe" := "running shoe"]> ∅)) ∧
  (<["shoe" := "running shoe"]> (<["running shoe" := "running shoe"]> ∅)
     : gmap string string) !! "shoe" = Some "running shoe" ∧
  (<["shoe" := "running shoe"]> (<["running shoe" := "running shoe"]> ∅)
     : gmap string string) !! "running shoe" = Some "running shoe".
Proof.
  split; [vm_compute; reflexivity|]. split; [vm_compute; reflexivity|].
  refine (proj1 (master_group_fixed
           (ranked [Record_ (Some "shoe") 3; Record_ (Some "running shoe") 7])
           [Row "shoe" (Some 3) "Secondary"; Row "running shoe" (Some 7) "primary"]
           [Row "running shoe" (Some 10) "Master"]
           (<["shoe" := "running shoe"]> (<["running shoe" := "running shoe"]> ∅))
           "shoe" "running shoe" _ _)).
  - vm_compute; reflexivity.
  - vm_compute; reflexivity.
Defined.

(** X6. Every group of the map is headed by its master: when a keyword is
    mapped to [g], the output holds a Master row with the keyword [g], and
    that row sorts in the group [g] itself. *)
Theorem group_has_master_row (data : records) (df ms : list (row string))
    (m : gmap string string) (out : list (row (option string))) (k g : string) :
  aggregated data = Returns (df, ms, m) →
  analyze_keywords data = Returns out →
  m !! k = Some g →
  ∃ r, r ∈ out ∧ Keyword r = g ∧ Class r = Some "Master" ∧
       MasterGroup m (Keyword r) = g.
Proof.
  intros Ha (df' & ms' & m' & _ & Hperm)%output_Permutation Hkg.
  destruct (finished_map_Some _ _ _ _ _ _ Ha Hkg) as (_ & _ & P1 & P2 & HP & _).
  assert (g ∈ Keyword <$> primary_keywords_df (table data)) as Hg.
  { rewrite Keyword_primary_rows, HP. apply elem_of_app. right. by left. }
  apply list_elem_of_fmap in Hg as (p & -> & Hp).
  exists (recast (output_dtype data)
            (to_categorical (master_of (table data) (default 0 (Ranking p)) p))).
  split; [|split; [done|split; [done|]]].
  - rewrite Hperm. apply list_elem_of_fmap_2, elem_of_app. right.
    apply list_elem_of_fmap_2.
    by apply (list_elem_of_fmap_2 (λ p, master_of (table data) (default 0 (Ranking p)) p)).
  - simpl. unfold MasterGroup.
    by rewrite (finished_map_fixed _ _ _ _ _ _ Ha Hkg).
Qed.

Lemma group_has_master_row_witness :
  aggregated (ranked [Record_ (Some "shoe") 3; Record_ (Some "running shoe") 7])
  = Returns ([Row "shoe" (Some 3) "Secondary"; Row "running shoe" (Some 7) "primary"],
             [Row "running shoe" (Some 10) "Master"],
             <["shoe" := "running shoe"]> (<["running shoe" := "running shoe"]> ∅)) ∧
  analyze_keywords (ranked [Record_ (Some "shoe") 3; Record_ (Some "running shoe") 7])
  = Returns [Row "running shoe" (Some 10) (Some "Master");
             Row "running shoe" (Some 7) (Some "primary");
             Row "shoe" (Some 3) (Some "Secondary")] ∧
  ∃ r, r ∈ [Row "running shoe" (Some 10) (Some "Master");
            Row "running shoe" (Some 7) (Some "primary");
            Row "shoe" (Some 3) (Some "Secondary")] ∧
       Keyword r = "running shoe" ∧ Class r = Some "Master" ∧
       MasterGroup (<["shoe" := "running shoe"]>
                      (<["running shoe" := "running shoe"]> ∅)) (Keyword r)
       = "running shoe".
Proof.
  split; [vm_compute; reflexivity|]. split; [vm_compute; reflexivity|].
  apply (group_has_master_row
           (ranked [Record_ (Some "shoe") 3; Record_ (Some "running shoe") 7])
           [Row "shoe" (Some 3) "Secondary"; Row "running shoe" (Some 7) "primary"]
           [Row "running shoe" (Some 10) "Master"]
           (<["shoe" := "running shoe"]> (<["running shoe" := "running shoe"]> ∅))
           [Row "running shoe" (Some 10) (Some "Master");
            Row "running shoe" (Some 7) (Some "primary");
            Row "shoe" (Some 3) (Some "Secondary")]
           "shoe" "running shoe").
  - vm_compute; reflexivity.
  - vm_compute; reflexivity.
  - vm_compute; reflexivity.
Defined.

(** ** Step 2: the sums *)

Section sums.
Context (P Q : record → Prop) `{!∀ o, Decision (P o), !∀ o, Decision (Q o)}.
Implicit Types l : list record.


End sums.


Lemma Zsum_nonneg (l : list Z) : Forall (λ z, 0 ≤ z) l → 0 ≤ Zsum l.
Proof. induction 1 as [|z l Hz _ IH]; simpl; lia. Qed.

(** X7. In step 2 the i-th master row is created for the i-th primary row of
    the table and carries its keyword; when no ranking of the table is
    negative, its sum is at least the ranking of that very row. *)
Theorem master_at_least_own (data : records) (df ms : list (row string))
    (m : gmap string string) (i : nat) (p : row string) :
  aggregated data = Returns (df, ms, m) →
  (∀ o z, o ∈ df → Ranking o = Some z → 0 ≤ z) →
  primary_keywords_df df !! i = Some p →
  ∃ own z : Z,
    Ranking p = Some own ∧
    ms !! i = Some (Row (Keyword p) (Some z) "Master") ∧
    own ≤ z.
Proof.
  intros Ha Hpos Hi.
  destruct (aggregated_inv _ _ _ _ Ha) as (_ & Hdf & -> & _ & Hall).
  rewrite Forall_forall in Hall.
  destruct (Hall p) as [own Hown]; [by eapply list_elem_of_lookup_2|].
  eexists own, _. split; [done|]. split.
  - rewrite list_lookup_fmap, Hi. simpl. unfold master_of. by rewrite Hown.
  - simpl.
    cut (0 ≤ Zsum ((λ o : row string, default 0 (Ranking o)) <$> others (Keyword p) df));
      [lia|].
    apply Zsum_nonneg, Forall_fmap, Forall_forall.
    intros o [_ Ho]%list_elem_of_filter. simpl.
    destruct (Ranking o) as [z|] eqn:Hz; simpl; [by apply (Hpos o) | done].
Qed.

Lemma master_at_least_own_witness :
  aggregated (ranked [Record_ (Some "shoe") 3; Record_ (Some "running shoe") 7])
  = Returns ([Row "shoe" (Some 3) "Secondary"; Row "running shoe" (Some 7) "primary"],
             [Row "running shoe" (Some 10) "Master"],
             <["shoe" := "running shoe"]> (<["running shoe" := "running shoe"]> ∅)) ∧
  (∀ o z, o ∈ [Row "shoe" (Some 3) "Secondary"; Row "running shoe" (Some 7) "primary"] →
          Ranking o = Some z → 0 ≤ z) ∧
  ∃ own z : Z,
    Ranking (Row "running shoe" (Some 7) "primary") = Some own ∧
    [Row "running shoe" (Some 10) "Master"] !! 0%nat
    = Some (Row (Keyword (Row "running shoe" (Some 7) "primary")) (Some z) "Master") ∧
    own ≤ z.
Proof.
  assert (∀ o z,
            o ∈ [Row "shoe" (Some 3) "Secondary"; Row "running shoe" (Some 7) "primary"] →
            Ranking o = Some z → 0 ≤ z) as Hpos.
  { intros o z Ho Hz.
    repeat (apply elem_of_cons in Ho as [->|Ho]; [injection Hz as <-; lia|]).
    by apply elem_of_nil in Ho. }
  split; [vm_compute; reflexivity|]. split; [exact Hpos|].
  apply (master_at_least_own
           (ranked [Record_ (Some "shoe") 3; Record_ (Some "running shoe") 7])
           [Row "shoe" (Some 3) "Secondary"; Row "running shoe" (Some 7) "primary"]
           [Row "running shoe" (Some 10) "Master"]
           (<["shoe" := "running shoe"]> (<["running shoe" := "running shoe"]> ∅))
           0%nat (Row "running shoe" (Some 7) "primary")).
  - vm_compute; reflexivity.
  - exact Hpos.
  - vm_compute; reflexivity.
Defined.

(** ** The values of a float64 column *)

Section float64.
Implicit Types n s a b z : Z.






End float64.



(** ** Step 3: the order of the output *)

Lemma StronglySorted_weaken {A : Type} (R S : A → A → Prop) (l : list A) :
  (∀ x y, R x y → S x y) → StronglySorted R l → StronglySorted S l.
Proof.
  intros HRS. induction 1 as [|x l _ IH Hx]; constructor; [done|].
  eapply Forall_impl; [exact Hx|]. intros y. apply HRS.
Qed.

Lemma StronglySorted_lookup {A : Type} (R : A → A → Prop) (l : list A)
    (i j : nat) (x y : A) :
  StronglySorted R l → (i < j)%nat → l !! i = Some x → l !! j = Some y → R x y.
Proof.
  intros Hl. revert i j. induction Hl as [|z l _ IH Hz]; intros i j Hij Hi Hj.
  - done.
  - destruct j as [|j]; [lia|]. simpl in Hj. destruct i as [|i]; simpl in Hi.
    + injection Hi as ->. rewrite Forall_forall in Hz.
      apply Hz. by eapply list_elem_of_lookup_2.
    + apply (IH i j); [lia | done | done].
Qed.

Lemma str_le_antisym (a b : string) : str_le a b → str_le b a → a = b.
Proof.
  rewrite !str_le_lt_eq. intros [Hab|Hab] [Hba|Hba]; try done.
  destruct (str_lt_irrefl a). by apply str_lt_trans with b.
Qed.

Lemma key_le_MasterGroup (m : gmap string string) (a b : row (option string)) :
  key_le m a b → str_le (MasterGroup m (Keyword a)) (MasterGroup m (Keyword b)).
Proof.
  rewrite str_le_lt_eq. intros [Hlt|[Heq _]]; auto.
Qed.

(** X9. Without a primary record there is no Master row and the map stays
    empty: the output is the input, every record Secondary, in the order of
    the keywords. *)
Theorem no_primary_output (data : records) (out : list (row (option string))) :
  analyze_keywords data = Returns out →
  primary_texts data = [] →
  aggregated data = Returns (table data, [], ∅) ∧
  out ≡ₚ (λ c, Row (astype_str c.1) c.2 (Some "Secondary")) <$> cells data ∧
  StronglySorted (λ a b, str_le (Keyword a) (Keyword b)) out.
Proof.
  intros Hout Hnone.
  split; [|split; [by apply no_primary_Permutation|]].
  - destruct (analyze_keywords_inv _ _ Hout) as (df & ms & m & Ha & _).
    destruct (aggregated_inv _ _ _ _ Ha) as (_ & Hdf & Hms & Hm & _).
    assert (primary_keywords_df (table data) = []) as Hprims.
    { apply (fmap_nil_inv Keyword). by rewrite Keyword_primary_rows. }
    rewrite Hdf, Hprims in Hms, Hm. simpl in Hms, Hm. by rewrite Ha, Hdf, Hms, Hm.
  - destruct (analyze_keywords_inv _ _ Hout) as (df & ms & m & Ha & ->).
    destruct (aggregated_inv _ _ _ _ Ha) as (_ & Hdf & _ & Hm & _).
    assert (primary_keywords_df (table data) = []) as Hprims.
    { apply (fmap_nil_inv Keyword). by rewrite Keyword_primary_rows. }
    rewrite Hdf, Hprims in Hm. simpl in Hm. rewrite Hm.
    eapply StronglySorted_weaken; [|apply sort_values_sorted].
    intros a b Hab%key_le_MasterGroup. unfold MasterGroup in Hab.
    by rewrite !lookup_empty in Hab.
Qed.

Lemma no_primary_output_witness :
  analyze_keywords (ranked [Record_ (Some "shoe") 10; Record_ (Some "boot") 5])
  = Returns [Row "boot" (Some 5) (Some "Secondary");
             Row "shoe" (Some 10) (Some "Secondary")] ∧
  primary_texts (ranked [Record_ (Some "shoe") 10; Record_ (Some "boot") 5]) = [] ∧
  StronglySorted (λ a b : row (option string), str_le (Keyword a) (Keyword b))
    [Row "boot" (Some 5) (Some "Secondary"); Row "shoe" (Some 10) (Some "Secondary")].
Proof.
  split; [vm_compute; reflexivity|]. split; [vm_compute; reflexivity|].
  refine (proj2 (proj2 (no_primary_output
           (ranked [Record_ (Some "shoe") 10; Record_ (Some "boot") 5])
           [Row "boot" (Some 5) (Some "Secondary");
            Row "shoe" (Some 10) (Some "Secondary")] _ _))).
  - vm_compute; reflexivity.
  - vm_compute; reflexivity.
Defined.

(** X10. Families are contiguous: between two rows of the output that sort
    in the same master group, every row sorts in that group. *)
Theorem groups_contiguous (data : records) (df ms : list (row string))
    (m : gmap string string) (out : list (row (option string)))
    (i j k : nat) (ri rj rk : row (option string)) :
  aggregated data = Returns (df, ms, m) →
  analyze_keywords data = Returns out →
  out !! i = Some ri → out !! j = Some rj → out !! k = Some rk →
  (i ≤ j ≤ k)%nat →
  MasterGroup m (Keyword ri) = MasterGroup m (Keyword rk) →
  MasterGroup m (Keyword rj) = MasterGroup m (Keyword ri).
Proof.
  intros Ha (df' & ms' & m' & Ha' & ->)%analyze_keywords_inv Hi Hj Hk [Hij Hjk] Hg.
  rewrite Ha in Ha'. injection Ha' as <- <- <-.
  pose proof (sort_values_sorted m (to_categorical <$> concat df ms)) as Hs.
  assert (str_le (MasterGroup m (Keyword ri)) (MasterGroup m (Keyword rj))) as H1.
  { destruct (decide (i = j)) as [->|Hne].
    - rewrite Hi in Hj. injection Hj as ->. apply str_le_lt_eq. by right.
    - apply key_le_MasterGroup.
      apply (StronglySorted_lookup _ _ i j _ _ Hs); [lia | done | done]. }
  assert (str_le (MasterGroup m (Keyword rj)) (MasterGroup m (Keyword rk))) as H2.
  { destruct (decide (j = k)) as [->|Hne].
    - rewrite Hj in Hk. injection Hk as ->. apply str_le_lt_eq. by right.
    - apply key_le_MasterGroup.
      apply (StronglySorted_lookup _ _ j k _ _ Hs); [lia | done | done]. }
  rewrite <- Hg in H2. by apply str_le_antisym.
Qed.

Lemma groups_contiguous_witness :
  aggregated (ranked [Record_ (Some "shoe") 3; Record_ (Some "running shoe") 7])
  = Returns ([Row "shoe" (Some 3) "Secondary"; Row "running shoe" (Some 7) "primary"],
             [Row "running shoe" (Some 10) "Master"],
             <["shoe" := "running shoe"]> (<["running shoe" := "running shoe"]> ∅)) ∧
  analyze_keywords (ranked [Record_ (Some "shoe") 3; Record_ (Some "running shoe") 7])
  = Returns [Row "running shoe" (Some 10) (Some "Master");
             Row "running shoe" (Some 7) (Some "primary");
             Row "shoe" (Some 3) (Some "Secondary")] ∧
  (0 ≤ 1 ≤ 2)%nat ∧
  MasterGroup (<["shoe" := "running shoe"]> (<["running shoe" := "running shoe"]> ∅))
    "running shoe"
  = MasterGroup (<["shoe" := "running shoe"]> (<["running shoe" := "running shoe"]> ∅))
      "running shoe".
Proof.
  split; [vm_compute; reflexivity|]. split; [vm_compute; reflexivity|].
  split; [lia|].
  apply (groups_contiguous
           (ranked [Record_ (Some "shoe") 3; Record_ (Some "running shoe") 7])
           [Row "shoe" (Some 3) "Secondary"; Row "running shoe" (Some 7) "primary"]
           [Row "running shoe" (Some 10) "Master"]
           (<["shoe" := "running shoe"]> (<["running shoe" := "running shoe"]> ∅))
           [Row "running shoe" (Some 10) (Some "Master");
            Row "running shoe" (Some 7) (Some "primary");
            Row "shoe" (Some 3) (Some "Secondary")]
           0%nat 1%nat 2%nat
           (Row "running shoe" (Some 10) (Some "Master"))
           (Row "running shoe" (Some 7) (Some "primary"))
           (Row "shoe" (Some 3) (Some "Secondary"))).
  - vm_compute; reflexivity.
  - vm_compute; reflexivity.
  - reflexivity.
  - reflexivity.
  - reflexivity.
  - lia.
  - vm_compute; reflexivity.
Defined.

(** ** Reordering the input *)












